(** * Patch blending ([inference/utils/blend.py]): a shallow embedding

    The blending core merges overlapping geo-referenced raster patches
    into one canvas.  This development embeds [_distance_weight],
    [_hann_weight] and [blend_patches_to_raster] and proves the
    properties stated about them.

    Number model.  The Python code computes with IEEE floating point
    (Python floats for coordinates, [float32]/[float16] arrays for
    samples and weights).  The embedding has two layers.
    - The exact layer: geographic coordinates and pixel sizes are
      rationals ([Q]), so that offsets and canvas sizes evaluate;
      samples, weights and accumulators are reals ([R]), because the
      Hann window needs the cosine; the casts [astype(np.float32)] and
      [astype(np.float16)] are the identity.  It carries the statements
      that rounding does not touch: shapes, failure paths, sums, zeros
      and bounds.
    - The rounded layer (module [Float]): the weight maps and the
      canvas over a [Floats] environment, which holds the rounded
      operations of the code as parameters.  It carries the statements
      on the values of the "smooth" weights and on the canvas size;
      they hold however the machine rounds.  The exact layer is the
      instance [exact_floats].
    - The one place where IEEE special values can be created from finite
      operands, a division by zero, is kept: [np_divide] returns a
      [fval], which is a finite real, an infinity or NaN.

    Arrays.  A 2-D [ndarray] is its shape together with its cells as a
    function of (row, column); only cells inside the shape are
    meaningful.  Two arrays are equal when their shapes and all their
    cells agree ([ndarray_eq], by functional extensionality).  Python's
    negative indices and the clipping of slices are written out in
    [slice_index].

    Other scripts.  Besides the blending function the development
    embeds the control flow of [raster_to_polygons_gdal]
    ([postprocessing/polygonize.py]), of [smooth_taubin]
    ([postprocessing/smooth_polygon.py]) and of the tile script
    ([postprocessing/mosaic/mosaic_tile.py]); what GDAL, Shapely and
    shapelysmooth compute is a parameter of those models.

    Exceptions.  A Python exception is a [Raise] of its class; the
    spec's [InputNotFoundError] is the code's [FileNotFoundError] and
    its [ConfigurationError] is [ValueError].  The code has no
    counterpart of [GeometryInconsistencyError]. *)

From Stdlib Require Import ZArith QArith Qround Reals Lra Lia List String Bool.
From Stdlib Require Import Permutation FunctionalExtensionality.
From Stdlib Require Lqa.
Import ListNotations.

Local Open Scope Z_scope.

(** ** Exceptions and the error monad *)

(** The Python exception classes the code can raise. *)
Inductive exn : Set :=
| ValueError
| FileNotFoundError
| ZeroDivisionError
| TypeError.

Inductive result (A : Type) : Type :=
| Ok (a : A)
| Raise (e : exn).

Arguments Ok {A} a.
Arguments Raise {A} e.

Definition bind {A B : Type} (m : result A) (k : A -> result B) : result B :=
  match m with
  | Ok a => k a
  | Raise e => Raise e
  end.

Notation "x <- m ;; k" := (bind m (fun x => k))
  (at level 61, m at next level, right associativity).
Notation "' pat <- m ;; k" := (bind m (fun x => match x with pat => k end))
  (at level 61, pat pattern, m at next level, right associativity).

(** ** Arrays *)

Record ndarray (A : Type) : Type := mk_ndarray {
  nrows : Z;
  ncols : Z;
  cell : Z -> Z -> A
}.

Arguments mk_ndarray {A} nrows ncols cell.
Arguments nrows {A} n.
Arguments ncols {A} n.
Arguments cell {A} n i j.

(** [(i, j)] is a position of an array of shape [(h, w)]. *)
Definition in_shape (h w i j : Z) : Prop := 0 <= i < h /\ 0 <= j < w.

(** [np.zeros((h, w))], [np.ones((h, w))]: a negative dimension is a
    [ValueError]. *)
Definition np_full (v : R) (h w : Z) : result (ndarray R) :=
  if (h <? 0) || (w <? 0) then Raise ValueError
  else Ok (mk_ndarray h w (fun _ _ => v)).

Definition np_zeros : Z -> Z -> result (ndarray R) := np_full 0%R.
Definition np_ones : Z -> Z -> result (ndarray R) := np_full 1%R.

(** Elementwise product of two arrays of the same shape. *)
Definition np_mul (a b : ndarray R) : ndarray R :=
  mk_ndarray (nrows a) (ncols a) (fun i j => (cell a i j * cell b i j)%R).

(** ** Weight maps *)

(** [_distance_weight(h, w)]: [np.mgrid[0:h, 0:w]] has shape
    [(max 0 h, max 0 w)]; [yy] and [xx] are the row and column index.
    This is the map before rounding; [Float._distance_weight] has the
    float64 quotient and the cast of line 20. *)
Definition _distance_weight (h w : Z) : ndarray R :=
  mk_ndarray (Z.max 0 h) (Z.max 0 w) (fun yy xx =>
    let dist_y := Z.min yy (h - 1 - yy) in
    let dist_x := Z.min xx (w - 1 - xx) in
    let dist := Z.min dist_y dist_x in
    Rmax (IZR dist / (0.5 * IZR (Z.min h w))) 0).

(** [np.hanning(M)]: empty for [M < 1], [[1.]] for [M = 1], otherwise
    [0.5 + 0.5 * cos(pi * n / (M - 1))] for [n = 1 - M, 3 - M, ..., M - 1].
    [hanning M k] is entry [k] of the window. *)
Definition hanning_len (M : Z) : Z := if M <? 1 then 0 else M.

Definition hanning (M k : Z) : R :=
  if M =? 1 then 1%R
  else
    let n := 1 - M + 2 * k in
    (0.5 + 0.5 * cos (PI * IZR n / IZR (M - 1)))%R.

(** [_hann_weight(h, w)]: [np.outer(wy, wx)], before rounding;
    [Float._hann_weight] has the cast of line 29. *)
Definition _hann_weight (h w : Z) : ndarray R :=
  mk_ndarray (hanning_len h) (hanning_len w)
    (fun i j => (hanning h i * hanning w j)%R).

(** The weight selected by the [blend] string (lines 97-104). *)
Definition weight_for (blend : string) (h w : Z) : result (ndarray R) :=
  if String.eqb blend "average" then np_ones h w
  else if String.eqb blend "smooth" then Ok (_distance_weight h w)
  else if String.eqb blend "hann" then Ok (_hann_weight h w)
  else Raise ValueError.

(** ** Geo-referencing *)

(** An affine transform [(a, b, c, d, e, f)]:
    [x = a * col + b * row + c], [y = d * col + e * row + f]. *)
Record Affine : Set := mk_affine {
  af_a : Q; af_b : Q; af_c : Q;
  af_d : Q; af_e : Q; af_f : Q
}.

(** [transform * (col, row)]. *)
Definition affine_apply (t : Affine) (col row : Q) : Q * Q :=
  ((col * af_a t + row * af_b t + af_c t)%Q,
   (col * af_d t + row * af_e t + af_f t)%Q).

(** [from_origin(west, north, xsize, ysize)]. *)
Definition from_origin (west north xsize ysize : Q) : Affine :=
  mk_affine xsize 0 west 0 (- ysize) north.

(** An opened patch file: what the code reads from a rasterio dataset.
    [band1] is band 1 as the loop uses it,
    [src.read(1).astype(np.float32)]; the patch's height and width are
    its shape. *)
Record Patch : Type := mk_patch {
  transform : Affine;
  band1 : ndarray R
}.

Definition height (src : Patch) : Z := nrows (band1 src).
Definition width (src : Patch) : Z := ncols (band1 src).

(** Python's [min(x, y)] and [max(x, y)]: the first argument unless the
    second is strictly smaller (larger). *)
Definition py_min (x y : Q) : Q := if Qlt_le_dec y x then y else x.
Definition py_max (x y : Q) : Q := if Qlt_le_dec x y then y else x.

(** The dataset's [bounds] = [(left, bottom, right, top)], as rasterio
    derives them from the transform and the size. *)
Definition bounds (src : Patch) : Q * Q * Q * Q :=
  let t := transform src in
  let w := inject_Z (width src) in
  let h := inject_Z (height src) in
  if Qeq_bool (af_b t) 0 && Qeq_bool (af_d t) 0 then
    (af_c t, (af_f t + af_e t * h)%Q, (af_c t + af_a t * w)%Q, af_f t)
  else
    let '(c0x, c0y) := (af_c t, af_f t) in
    let '(c1x, c1y) := affine_apply t 0 h in
    let '(c2x, c2y) := affine_apply t w h in
    let '(c3x, c3y) := affine_apply t w 0 in
    (py_min (py_min (py_min c0x c1x) c2x) c3x,
     py_min (py_min (py_min c0y c1y) c2y) c3y,
     py_max (py_max (py_max c0x c1x) c2x) c3x,
     py_max (py_max (py_max c0y c1y) c2y) c3y).

(** Python float division. *)
Definition py_div (x y : Q) : result Q :=
  if Qeq_bool y 0 then Raise ZeroDivisionError else Ok (x / y)%Q.

(** Python's [round(x)]: to the nearest integer, ties to the even one. *)
Definition py_round (x : Q) : Z :=
  let f := Qfloor x in
  match (x - inject_Z f ?= 1 # 2)%Q with
  | Lt => f
  | Gt => f + 1
  | Eq => if Z.even f then f else f + 1
  end.

(** Lines 72-79: the running [minx], [miny], [maxx], [maxy], each [None]
    before the first patch. *)
Definition bounds_acc : Set := option Q * option Q * option Q * option Q.

Definition upd (f : Q -> Q -> Q) (cur : option Q) (v : Q) : option Q :=
  match cur with
  | None => Some v
  | Some m => Some (f m v)
  end.

Definition bounds_step (st : bounds_acc) (src : Patch) : bounds_acc :=
  let '(minx, miny, maxx, maxy) := st in
  let '(left_, bottom, right_, top) := bounds src in
  (upd py_min minx left_, upd py_min miny bottom,
   upd py_max maxx right_, upd py_max maxy top).

Definition output_bounds (patch_files : list Patch) : bounds_acc :=
  fold_left bounds_step patch_files (None, None, None, None).

(** [x - y] on values that may still be [None]. *)
Definition py_sub (x y : option Q) : result Q :=
  match x, y with
  | Some a, Some b => Ok (a - b)%Q
  | _, _ => Raise TypeError
  end.

(** The output grid: lines 65-83.  [canvas_of] evaluates them in
    exact arithmetic on the exact [bounds]; [Float.canvas_of] is the
    same code on the bounds, the difference and the quotient as the
    machine rounds them. *)
Record Canvas : Set := mk_canvas {
  cv_minx : Q;
  cv_maxy : Q;
  cv_pixel_size_x : Q;
  cv_pixel_size_y : Q;
  cv_width : Z;
  cv_height : Z
}.

Definition canvas_of (ref : Patch) (patch_files : list Patch) : result Canvas :=
  let pixel_size_x := af_a (transform ref) in
  let pixel_size_y := (- af_e (transform ref))%Q in
  let '(minx, miny, maxx, maxy) := output_bounds patch_files in
  dx <- py_sub maxx minx ;;
  qx <- py_div dx pixel_size_x ;;
  let width := Qceiling qx in
  dy <- py_sub maxy miny ;;
  qy <- py_div dy pixel_size_y ;;
  let height := Qceiling qy in
  match minx, maxy with
  | Some minx, Some maxy =>
      Ok (mk_canvas minx maxy pixel_size_x pixel_size_y width height)
  | _, _ => Raise TypeError
  end.

(** ** Accumulation *)

(** One bound of a slice [a[start:stop]] on an axis of length [len]:
    a negative index counts from the end, and the result is clipped to
    [0 .. len]. *)
Definition slice_index (len i : Z) : Z :=
  if i <? 0 then Z.max 0 (i + len) else Z.min i len.

(** First index and length of [a[start:stop]]. *)
Definition slice_bounds (len start stop : Z) : Z * Z :=
  let s := slice_index len start in
  let e := slice_index len stop in
  (s, Z.max 0 (e - s)).

(** An operand axis of length [n] broadcasts to a target axis of length
    [len] when they agree or [n = 1]; [bidx] is the operand index read
    for target index [k]. *)
Definition broadcastable (n len : Z) : bool := (n =? len) || (n =? 1).
Definition bidx (n k : Z) : Z := if n =? 1 then 0 else k.

(** Whether index [i] lies in [a[start:stop]]. *)
Definition in_slice (len start stop i : Z) : bool :=
  let '(s, l) := slice_bounds len start stop in
  (s <=? i) && (i <? s + l).

(** [a[r0:r1, c0:c1] += rhs].  The slice is a view of shape
    [(rl, cl)]; [rhs] must broadcast to it, else numpy raises
    [ValueError]. *)
Definition iadd_window (a : ndarray R) (r0 r1 c0 c1 : Z) (rhs : ndarray R)
  : result (ndarray R) :=
  let '(rs, rl) := slice_bounds (nrows a) r0 r1 in
  let '(cs, cl) := slice_bounds (ncols a) c0 c1 in
  if broadcastable (nrows rhs) rl && broadcastable (ncols rhs) cl then
    Ok (mk_ndarray (nrows a) (ncols a) (fun i j =>
          if in_slice (nrows a) r0 r1 i && in_slice (ncols a) c0 c1 j
          then (cell a i j
                + cell rhs (bidx (nrows rhs) (i - rs)) (bidx (ncols rhs) (j - cs)))%R
          else cell a i j))
  else Raise ValueError.

(** Lines 107-108: the patch's offsets in the canvas. *)
Definition offsets (cv : Canvas) (src : Patch) : result (Z * Z) :=
  let '(left_, top) := affine_apply (transform src) 0 0 in
  qc <- py_div (left_ - cv_minx cv) (cv_pixel_size_x cv) ;;
  let col_off := py_round qc in
  qr <- py_div (cv_maxy cv - top) (cv_pixel_size_y cv) ;;
  let row_off := py_round qr in
  Ok (row_off, col_off).

(** The body of the loop at lines 92-111; the state is
    [(acc, weight_sum)]. *)
Definition blend_step (blend : string) (cv : Canvas)
  (st : ndarray R * ndarray R) (src : Patch) : result (ndarray R * ndarray R) :=
  let '(acc, weight_sum) := st in
  let data := band1 src in
  let h := nrows data in
  let w := ncols data in
  weight <- weight_for blend h w ;;
  '(row_off, col_off) <- offsets cv src ;;
  acc' <- iadd_window acc row_off (row_off + h) col_off (col_off + w)
            (np_mul data weight) ;;
  weight_sum' <- iadd_window weight_sum row_off (row_off + h)
                   col_off (col_off + w) weight ;;
  Ok (acc', weight_sum').

Fixpoint blend_loop (blend : string) (cv : Canvas) (patch_files : list Patch)
  (st : ndarray R * ndarray R) : result (ndarray R * ndarray R) :=
  match patch_files with
  | [] => Ok st
  | src :: rest =>
      st' <- blend_step blend cv st src ;;
      blend_loop blend cv rest st'
  end.

(** Lines 52-111: the patch list, the canvas and the accumulators after
    all patches. *)
Definition resolve_patch_files (patch_files patch_folder : option (list Patch))
  : result (list Patch) :=
  match patch_files with
  | Some l => Ok l
  | None =>
      match patch_folder with
      | None => Raise ValueError
      | Some l => Ok l
      end
  end.

Definition accumulate (patch_files : list Patch) (blend : string)
  : result (Canvas * (ndarray R * ndarray R)) :=
  match patch_files with
  | [] => Raise FileNotFoundError
  | ref :: _ =>
      cv <- canvas_of ref patch_files ;;
      acc <- np_zeros (cv_height cv) (cv_width cv) ;;
      weight_sum <- np_zeros (cv_height cv) (cv_width cv) ;;
      st <- blend_loop blend cv patch_files (acc, weight_sum) ;;
      Ok (cv, st)
  end.

(** ** Normalization, mask and output type *)

(** A float as numpy can produce it from finite operands. *)
Inductive fval : Set :=
| Finite (x : R)
| PosInf
| NegInf
| NaN.

(** IEEE division of two finite values: [x / 0] is an infinity and
    [0 / 0] is NaN. *)
Definition np_divide (a b : R) : fval :=
  if Req_dec_T b 0 then
    if Req_dec_T a 0 then NaN
    else if Rlt_dec 0 a then PosInf else NegInf
  else Finite (a / b).

Definition zeros_like (a : ndarray R) : ndarray R :=
  mk_ndarray (nrows a) (ncols a) (fun _ _ => 0%R).

(** Line 114:
    [np.divide(acc, weight_sum, out=np.zeros_like(acc), where=(weight_sum > 0))]:
    the quotient where the condition holds, the cell of [out] elsewhere. *)
Definition normalize (acc weight_sum : ndarray R) : ndarray fval :=
  let out := zeros_like acc in
  mk_ndarray (nrows acc) (ncols acc) (fun i j =>
    if Rlt_dec 0 (cell weight_sum i j)
    then np_divide (cell acc i j) (cell weight_sum i j)
    else Finite (cell out i j)).

(** A float times the boolean [mask_data == 1]. *)
Definition fmul_bool (v : fval) (keep : bool) : fval :=
  if keep then v
  else match v with
       | Finite _ => Finite 0
       | _ => NaN
       end.

(** Lines 117-130.  [reproject] is rasterio's; [mask_file] is the mask
    already resampled onto the canvas grid. *)
Definition apply_mask (mask_file : option (ndarray Z)) (result : ndarray fval)
  : ndarray fval :=
  match mask_file with
  | None => result
  | Some mask_data =>
      mk_ndarray (nrows result) (ncols result) (fun i j =>
        fmul_bool (cell result i j) (cell mask_data i j =? 1))
  end.

(** [np.clip(v, lo, hi) = minimum(maximum(v, lo), hi)]. *)
Definition np_clip (lo hi : R) (v : fval) : fval :=
  match v with
  | Finite x => Finite (Rmin (Rmax x lo) hi)
  | PosInf => Finite hi
  | NegInf => Finite lo
  | NaN => NaN
  end.

(** Rounding toward zero, the C conversion from float to integer. *)
Definition Rtrunc (x : R) : Z :=
  if Rle_dec 0 x then Int_part x else - Int_part (- x).

(** [astype] to an unsigned integer type of [bits] bits: the integer
    part, reduced modulo [2 ^ bits] as a bare cast wraps.  The cast of
    NaN is platform-dependent (0 on the usual ones). *)
Definition astype_uint (bits : Z) (v : fval) : Z :=
  match v with
  | Finite x => Rtrunc x mod 2 ^ bits
  | _ => 0
  end.

(** What is handed to the raster writer: a float array, or an unsigned
    integer array with its width in bits. *)
Inductive raster : Type :=
| FloatData (a : ndarray fval)
| UIntData (bits : Z) (a : ndarray Z).

Definition map_array {A B : Type} (f : A -> B) (a : ndarray A) : ndarray B :=
  mk_ndarray (nrows a) (ncols a) (fun i j => f (cell a i j)).

(** One value through lines 133-136, for the two known types. *)
Definition quantize_uint16 (v : fval) : Z := astype_uint 16 (np_clip 0 65535 v).
Definition quantize_uint8 (v : fval) : Z := astype_uint 8 (np_clip 0 255 v).

(** Lines 133-136: there is no [else]. *)
Definition convert_dtype (dtype : string) (result : ndarray fval) : raster :=
  if String.eqb dtype "uint16" then UIntData 16 (map_array quantize_uint16 result)
  else if String.eqb dtype "uint8" then UIntData 8 (map_array quantize_uint8 result)
  else FloatData result.

(** The [meta] dictionary and the array written at lines 139-154. *)
Record Output : Type := mk_output {
  meta_height : Z;
  meta_width : Z;
  meta_dtype : string;
  meta_transform : Affine;
  meta_nodata : Z;
  written : raster
}.

(** [blend_patches_to_raster], up to the call of the raster writer. *)
Definition blend_patches_to_raster
  (patch_files patch_folder : option (list Patch))
  (blend dtype : string) (mask_file : option (ndarray Z)) : result Output :=
  patch_files <- resolve_patch_files patch_files patch_folder ;;
  '(cv, (acc, weight_sum)) <- accumulate patch_files blend ;;
  let result := normalize acc weight_sum in
  let result := apply_mask mask_file result in
  let result := convert_dtype dtype result in
  Ok (mk_output (cv_height cv) (cv_width cv) dtype
        (from_origin (cv_minx cv) (cv_maxy cv)
           (cv_pixel_size_x cv) (cv_pixel_size_y cv))
        0 result).

(** ** Auxiliary definitions used in the statements *)

(** The three documented blend modes. *)
Definition known_blend (blend : string) : Prop :=
  blend = "average"%string \/ blend = "smooth"%string \/ blend = "hann"%string.

(** Distance, in cells, from [(yy, xx)] to the nearest border of an
    [h] by [w] patch. *)
Definition border_distance (h w yy xx : Z) : Z :=
  Z.min (Z.min yy (h - 1 - yy)) (Z.min xx (w - 1 - xx)).

(** [a] with [d i j] added to every cell. *)
Definition add_cells (a : ndarray R) (d : Z -> Z -> R) : ndarray R :=
  mk_ndarray (nrows a) (ncols a) (fun i j => (cell a i j + d i j)%R).

(** Whether an operand of shape [(h, w)] broadcasts to the view
    [a[r0:r1, c0:c1]] of an array of shape [(H, W)]. *)
Definition window_ok (H W r0 r1 c0 c1 h w : Z) : bool :=
  broadcastable h (snd (slice_bounds H r0 r1))
  && broadcastable w (snd (slice_bounds W c0 c1)).

(** What [a[r0:r1, c0:c1] += rhs] adds at cell [(i, j)]. *)
Definition window_term (H W r0 r1 c0 c1 : Z) (rhs : ndarray R) (i j : Z) : R :=
  if in_slice H r0 r1 i && in_slice W c0 c1 j
  then cell rhs (bidx (nrows rhs) (i - fst (slice_bounds H r0 r1)))
                (bidx (ncols rhs) (j - fst (slice_bounds W c0 c1)))
  else 0%R.

(** The part of a loop iteration that does not depend on the
    accumulators: the weight map and the offsets. *)
Definition patch_terms (blend : string) (cv : Canvas) (src : Patch)
  : result (ndarray R * (Z * Z)) :=
  weight <- weight_for blend (height src) (width src) ;;
  off <- offsets cv src ;;
  Ok (weight, off).

(** One iteration, in terms of what it adds to the two accumulators. *)
Definition step_delta (blend : string) (cv : Canvas)
  (st : ndarray R * ndarray R) (src : Patch)
  : result ((Z -> Z -> R) * (Z -> Z -> R)) :=
  let '(acc, weight_sum) := st in
  let h := height src in
  let w := width src in
  '(weight, (r, c)) <- patch_terms blend cv src ;;
  if window_ok (nrows acc) (ncols acc) r (r + h) c (c + w) h w
     && window_ok (nrows weight_sum) (ncols weight_sum) r (r + h) c (c + w)
          (nrows weight) (ncols weight)
  then Ok (window_term (nrows acc) (ncols acc) r (r + h) c (c + w)
             (np_mul (band1 src) weight),
           window_term (nrows weight_sum) (ncols weight_sum) r (r + h) c (c + w)
             weight)
  else Raise ValueError.

Definition add_delta (st : ndarray R * ndarray R)
  (d : (Z -> Z -> R) * (Z -> Z -> R)) : ndarray R * ndarray R :=
  (add_cells (fst st) (fst d), add_cells (snd st) (snd d)).

(** Both accumulators have the canvas shape [(H, W)]. *)
Definition has_shape (H W : Z) (st : ndarray R * ndarray R) : Prop :=
  nrows (fst st) = H /\ ncols (fst st) = W
  /\ nrows (snd st) = H /\ ncols (snd st) = W.

(** The four components of a patch's bounds. *)
Definition b_left (src : Patch) : Q := fst (fst (fst (bounds src))).
Definition b_bottom (src : Patch) : Q := snd (fst (fst (bounds src))).
Definition b_right (src : Patch) : Q := snd (fst (bounds src)).
Definition b_top (src : Patch) : Q := snd (bounds src).

(** [m] is the least (greatest) element of [xs]. *)
Definition is_min (m : Q) (xs : list Q) : Prop :=
  In m xs /\ Forall (fun x => (m <= x)%Q) xs.
Definition is_max (m : Q) (xs : list Q) : Prop :=
  In m xs /\ Forall (fun x => (x <= m)%Q) xs.

(** The zeroed accumulators of a canvas (lines 88-89). *)
Definition zero_state (cv : Canvas) : ndarray R * ndarray R :=
  (mk_ndarray (cv_height cv) (cv_width cv) (fun _ _ => 0%R),
   mk_ndarray (cv_height cv) (cv_width cv) (fun _ _ => 0%R)).

(** Patch [src] covers canvas cell [(i, j)]: the cell lies in the
    window the loop updates for [src]. *)
Definition covers (cv : Canvas) (src : Patch) (i j : Z) : Prop :=
  exists r c,
    offsets cv src = Ok (r, c)
    /\ in_slice (cv_height cv) r (r + height src) i = true
    /\ in_slice (cv_width cv) c (c + width src) j = true.

(** ** Floating-point arithmetic *)

(** The definitions above compute in exact arithmetic.  The code
    computes in IEEE floating point: Python floats (float64) for the
    geometry, float64 arrays cast to float16 for the weight maps.  A
    [Floats] environment holds the rounded operations of the code that
    the statements on the weight maps and on the canvas size depend
    on; it is a parameter, so that what is proved of [Float.canvas_of]
    and [Float._distance_weight] holds however the machine rounds.
    - [f64_sub x y] and [f64_div x y]: Python's [x - y] and [x / y] on
      floats;
    - [src_bounds src]: [src.bounds] as rasterio computes it from the
      transform and the size, in floats;
    - [r64 x]: the float64 that an arithmetic operation on arrays
      returns when its real result is [x];
    - [cast16 x]: [astype(np.float16)] of the float64 [x]. *)
Record Floats : Type := mk_floats {
  f64_sub : Q -> Q -> Q;
  f64_div : Q -> Q -> Q;
  src_bounds : Patch -> Q * Q * Q * Q;
  r64 : R -> R;
  cast16 : R -> R
}.

(** Exact arithmetic is one such environment: nothing is rounded. *)
Definition exact_floats : Floats :=
  mk_floats Qminus Qdiv bounds (fun x => x) (fun x => x).

(** What is used of a rounding to nearest: it keeps the order, and 0
    and 1, which every binary format holds, are not changed. *)
Definition rounding (rnd : R -> R) : Prop :=
  (forall x y, (x <= y)%R -> (rnd x <= rnd y)%R)
  /\ rnd 0%R = 0%R /\ rnd 1%R = 1%R.

Definition rounds_to_nearest (fl : Floats) : Prop :=
  rounding (r64 fl) /\ rounding (cast16 fl).

Module Float.

(** [_distance_weight(h, w)] (lines 10-20): the quotient is a float64
    array, which line 20 casts to float16. *)
Definition _distance_weight (fl : Floats) (h w : Z) : ndarray R :=
  mk_ndarray (Z.max 0 h) (Z.max 0 w) (fun yy xx =>
    let dist_y := Z.min yy (h - 1 - yy) in
    let dist_x := Z.min xx (w - 1 - xx) in
    let dist := Z.min dist_y dist_x in
    let norm := Rmax (r64 fl (IZR dist / (0.5 * IZR (Z.min h w)))) 0 in
    cast16 fl norm).

(** [_hann_weight(h, w)] (lines 23-29): the outer product is a float64
    array, cast to float16.  The entries of [np.hanning] are taken at
    their real values. *)
Definition _hann_weight (fl : Floats) (h w : Z) : ndarray R :=
  mk_ndarray (hanning_len h) (hanning_len w)
    (fun i j => cast16 fl (r64 fl (hanning h i * hanning w j))).

(** Lines 97-104: the "average" weight is a float32 array of ones. *)
Definition weight_for (fl : Floats) (blend : string) (h w : Z)
  : result (ndarray R) :=
  if String.eqb blend "average" then np_ones h w
  else if String.eqb blend "smooth" then Ok (_distance_weight fl h w)
  else if String.eqb blend "hann" then Ok (_hann_weight fl h w)
  else Raise ValueError.

(** Python float division and subtraction. *)
Definition py_div (fl : Floats) (x y : Q) : result Q :=
  if Qeq_bool y 0 then Raise ZeroDivisionError else Ok (f64_div fl x y).

Definition py_sub (fl : Floats) (x y : option Q) : result Q :=
  match x, y with
  | Some a, Some b => Ok (f64_sub fl a b)
  | _, _ => Raise TypeError
  end.

(** Lines 72-79, on the bounds as rasterio reports them. *)
Definition bounds_step (fl : Floats) (st : bounds_acc) (src : Patch)
  : bounds_acc :=
  let '(minx, miny, maxx, maxy) := st in
  let '(left_, bottom, right_, top) := src_bounds fl src in
  (upd py_min minx left_, upd py_min miny bottom,
   upd py_max maxx right_, upd py_max maxy top).

Definition output_bounds (fl : Floats) (patch_files : list Patch)
  : bounds_acc :=
  fold_left (bounds_step fl) patch_files (None, None, None, None).

(** Lines 65-83: [np.ceil] of a float is exact, and so is [int]. *)
Definition canvas_of (fl : Floats) (ref : Patch) (patch_files : list Patch)
  : result Canvas :=
  let pixel_size_x := af_a (transform ref) in
  let pixel_size_y := (- af_e (transform ref))%Q in
  let '(minx, miny, maxx, maxy) := output_bounds fl patch_files in
  dx <- py_sub fl maxx minx ;;
  qx <- py_div fl dx pixel_size_x ;;
  let width := Qceiling qx in
  dy <- py_sub fl maxy miny ;;
  qy <- py_div fl dy pixel_size_y ;;
  let height := Qceiling qy in
  match minx, maxy with
  | Some minx, Some maxy =>
      Ok (mk_canvas minx maxy pixel_size_x pixel_size_y width height)
  | _, _ => Raise TypeError
  end.

(** The four components of a patch's reported bounds. *)
Definition b_left (fl : Floats) (src : Patch) : Q :=
  fst (fst (fst (src_bounds fl src))).
Definition b_bottom (fl : Floats) (src : Patch) : Q :=
  snd (fst (fst (src_bounds fl src))).
Definition b_right (fl : Floats) (src : Patch) : Q :=
  snd (fst (src_bounds fl src)).
Definition b_top (fl : Floats) (src : Patch) : Q :=
  snd (src_bounds fl src).

End Float.

(** ** Definitions for the further properties *)

(** Sum of a list of reals. *)
Definition Rsum (xs : list R) : R := fold_right Rplus 0%R xs.

(** The weight map the loop computes for [src] (empty if the mode is
    unknown). *)
Definition weight_of (blend : string) (src : Patch) : ndarray R :=
  match weight_for blend (height src) (width src) with
  | Ok weight => weight
  | Raise _ => mk_ndarray 0 0 (fun _ _ => 0%R)
  end.

(** What the loop adds at canvas cell [(i, j)] when it adds the array
    [rhs] in the window of [src]. *)
Definition stamp (cv : Canvas) (src : Patch) (rhs : ndarray R) (i j : Z) : R :=
  match offsets cv src with
  | Ok (r, c) =>
      window_term (cv_height cv) (cv_width cv)
        r (r + height src) c (c + width src) rhs i j
  | Raise _ => 0%R
  end.

(** Boolean form of [covers]. *)
Definition coversb (cv : Canvas) (src : Patch) (i j : Z) : bool :=
  match offsets cv src with
  | Ok (r, c) =>
      in_slice (cv_height cv) r (r + height src) i
      && in_slice (cv_width cv) c (c + width src) j
  | Raise _ => false
  end.

(** One pixel of the array handed to the writer. *)
Inductive pixel : Set :=
| PxFloat (v : fval)
| PxInt (z : Z).

Definition raster_cell (r : raster) (i j : Z) : pixel :=
  match r with
  | FloatData a => PxFloat (cell a i j)
  | UIntData _ a => PxInt (cell a i j)
  end.

Definition raster_shape (r : raster) : Z * Z :=
  match r with
  | FloatData a => (nrows a, ncols a)
  | UIntData _ a => (nrows a, ncols a)
  end.

(** The pixel that [convert_dtype] makes of a float. *)
Definition convert_pixel (dtype : string) (v : fval) : pixel :=
  if String.eqb dtype "uint16" then PxInt (quantize_uint16 v)
  else if String.eqb dtype "uint8" then PxInt (quantize_uint8 v)
  else PxFloat v.

(** A north-up patch with pixel sizes [psx], [psy] and a well-formed
    shape. *)
Definition aligned (psx psy : Q) (src : Patch) : Prop :=
  (af_b (transform src) == 0)%Q /\ (af_d (transform src) == 0)%Q
  /\ (af_a (transform src) == psx)%Q /\ (- af_e (transform src) == psy)%Q
  /\ 0 <= height src /\ 0 <= width src.

(** The window of [src] at offsets [(r, c)] lies inside the canvas. *)
Definition fits (cv : Canvas) (src : Patch) (r c : Z) : Prop :=
  0 <= r /\ r + height src <= cv_height cv
  /\ 0 <= c /\ c + width src <= cv_width cv.

(** ** Polygonization ([postprocessing/polygonize.py]) *)

(** A GDAL dataset as the function reads it: its projection and
    geotransform and the array of band 1 ([ReadAsArray] may return
    [None]). *)
Record Dataset : Type := mk_dataset {
  ds_projection : string;
  ds_geotransform : Affine;
  ds_array : option (ndarray R)
}.

(** A raster file found by [glob]: its path and what [gdal.Open]
    returns for it ([None] when it cannot be opened). *)
Record RasterFile : Type := mk_raster_file {
  raster_path : string;
  gdal_Open : option Dataset
}.

(** A feature of the output layer: its geometry and the value of field
    0, the string field "source". *)
Record Feature (geometry : Type) : Type := mk_feature {
  f_geom : geometry;
  f_source : string
}.

Arguments mk_feature {geometry} f_geom f_source.
Arguments f_geom {geometry} f.
Arguments f_source {geometry} f.

(** The layer "polygons": its spatial reference and its features in
    insertion order. *)
Record Layer (geometry : Type) : Type := mk_layer {
  ly_srs : string;
  ly_features : list (Feature geometry)
}.

Arguments mk_layer {geometry} ly_srs ly_features.
Arguments ly_srs {geometry} l.
Arguments ly_features {geometry} l.

Section PolygonizeModel.

(** GDAL's and [os.path]'s parts: the polygons [gdal.Polygonize] makes
    of a byte band that is also its own mask band, and
    [os.path.splitext(os.path.basename(path))[0]]. *)
Variable geometry : Type.
Variable gdal_Polygonize : Affine -> ndarray Z -> list geometry.
Variable layer_name : string -> string.

(** Line 61: [(arr >= threshold).astype(np.uint8)]. *)
Definition threshold_mask (threshold : R) (arr : ndarray R) : ndarray Z :=
  map_array (fun v => if Rle_dec threshold v then 1 else 0) arr.

(** Lines 92-94: every feature of the layer gets the current name. *)
Definition set_source (name : string) (fs : list (Feature geometry))
  : list (Feature geometry) :=
  map (fun feature => mk_feature (f_geom feature) name) fs.

(** The body of the loop at lines 46-98; the state is [out_layer]. *)
Definition polygonize_step (threshold : R)
  (out_layer : option (Layer geometry)) (file : RasterFile)
  : option (Layer geometry) :=
  match gdal_Open file with
  | None => out_layer
  | Some src_ds =>
      match ds_array src_ds with
      | None => out_layer
      | Some arr =>
          let mask := threshold_mask threshold arr in
          let layer :=
            match out_layer with
            | None => mk_layer (ds_projection src_ds) []
            | Some layer => layer
            end in
          let tmp_layer_name := layer_name (raster_path file) in
          let polygons := gdal_Polygonize (ds_geotransform src_ds) mask in
          let features :=
            ly_features layer
            ++ map (fun g => mk_feature g "1"%string) polygons in
          Some (mk_layer (ly_srs layer) (set_source tmp_layer_name features))
      end
  end.

(** [raster_to_polygons_gdal]: the layer written to the GeoPackage
    ([None] when no layer was created). *)
Definition raster_to_polygons_gdal (raster_files : list RasterFile)
  (threshold : R) : result (option (Layer geometry)) :=
  match raster_files with
  | [] => Raise FileNotFoundError
  | _ => Ok (fold_left (polygonize_step threshold) raster_files None)
  end.

(** What a readable file contributes: its projection, its name and its
    polygons. *)
Definition readable (threshold : R) (file : RasterFile)
  : option (string * string * list geometry) :=
  match gdal_Open file with
  | None => None
  | Some src_ds =>
      match ds_array src_ds with
      | None => None
      | Some arr =>
          Some (ds_projection src_ds, layer_name (raster_path file),
                gdal_Polygonize (ds_geotransform src_ds)
                  (threshold_mask threshold arr))
      end
  end.

Fixpoint filter_map {A B : Type} (f : A -> option B) (l : list A) : list B :=
  match l with
  | [] => []
  | x :: l' =>
      match f x with
      | Some y => y :: filter_map f l'
      | None => filter_map f l'
      end
  end.

(** The contributions of the readable files of a list, in order. *)
Definition contributions (threshold : R) (files : list RasterFile)
  : list (string * string * list geometry) :=
  filter_map (readable threshold) files.

End PolygonizeModel.

(** ** Taubin smoothing ([postprocessing/smooth_polygon.py]) *)

Section SmoothModel.

(** Shapely's and shapelysmooth's parts; each may raise. *)
Variable geometry : Type.
Variable simplify : R -> bool -> geometry -> result geometry.
Variable taubin_smooth : R -> R -> Z -> geometry -> result geometry.

(** The [try] block of lines 84-100 for one geometry; the second
    component is the value of the loop variable [geom] when the block
    ends or raises (line 87 rebinds it). *)
Definition taubin_try (factor mu : R) (steps : Z)
  (simplify_tolerance_pre simplify_tolerance_post : option R)
  (preserve_topology : bool) (geom : geometry) : result geometry * geometry :=
  match simplify_tolerance_pre with
  | None =>
      (smoothed_geom <- taubin_smooth factor mu steps geom ;;
       match simplify_tolerance_post with
       | None => Ok smoothed_geom
       | Some tol => simplify tol preserve_topology smoothed_geom
       end, geom)
  | Some tol_pre =>
      match simplify tol_pre preserve_topology geom with
      | Raise e => (Raise e, geom)
      | Ok geom' =>
          (smoothed_geom <- taubin_smooth factor mu steps geom' ;;
           match simplify_tolerance_post with
           | None => Ok smoothed_geom
           | Some tol => simplify tol preserve_topology smoothed_geom
           end, geom')
      end
  end.

(** Lines 83-104: one iteration appends the smoothed geometry, or
    [geom] if anything raised. *)
Definition taubin_step (factor mu : R) (steps : Z)
  (simplify_tolerance_pre simplify_tolerance_post : option R)
  (preserve_topology : bool) (smoothed : list geometry) (geom : geometry)
  : list geometry :=
  match taubin_try factor mu steps simplify_tolerance_pre
          simplify_tolerance_post preserve_topology geom with
  | (Ok smoothed_geom, _) => smoothed ++ [smoothed_geom]
  | (Raise _, geom') => smoothed ++ [geom']
  end.

(** [smooth_taubin]: the geometries of the returned frame, for the
    geometries read from the input file. *)
Definition smooth_taubin (geoms : list geometry) (factor mu : R) (steps : Z)
  (simplify_tolerance_pre simplify_tolerance_post : option R)
  (preserve_topology : bool) : list geometry :=
  fold_left (taubin_step factor mu steps simplify_tolerance_pre
               simplify_tolerance_post preserve_topology) geoms [].

End SmoothModel.

(** ** The tile script ([postprocessing/mosaic/mosaic_tile.py]) *)

(** The script, from the parsed arguments and the manifest loaded from
    the JSON file ([groups part] is [None] when the key is absent).
    [blend] and [dtype] are [None] when the option is not given. *)
Definition mosaic_tile (groups : string -> option (list Patch))
  (part : string) (blend dtype : option string)
  (mask : option (ndarray Z)) : result Output :=
  let blend := match blend with Some b => b | None => "hann"%string end in
  let dtype := match dtype with Some d => d | None => "uint16"%string end in
  match groups part with
  | None => Raise ValueError
  | Some patch_files =>
      blend_patches_to_raster (Some patch_files) None blend dtype mask
  end.

(** ** Example inputs *)

(** A 1 by 1 patch with its upper-left corner at [(0, 1)], pixel size 1
    and sample 7. *)
Definition patch_a : Patch :=
  mk_patch (mk_affine 1 0 0 0 (-1) 1) (mk_ndarray 1 1 (fun _ _ => 7%R)).

(** A 1 by 1 patch of pixel size [2/5] with its upper-left corner at
    [(3/5, 1)] and sample 9: it lies inside the extent of [patch_a] but
    is not aligned to its grid. *)
Definition patch_b : Patch :=
  mk_patch (mk_affine (2 # 5) 0 (3 # 5) 0 (- (2 # 5)) 1)
    (mk_ndarray 1 1 (fun _ _ => 9%R)).

(** A 2 by 2 patch on the grid of [patch_a], upper-left corner at
    [(0, 1)], samples [10 * row + col + 1]. *)
Definition patch_c : Patch :=
  mk_patch (mk_affine 1 0 0 0 (-1) 1)
    (mk_ndarray 2 2 (fun i j => IZR (10 * i + j + 1))).

(** The canvas of [[patch_a]], which is also that of
    [[patch_a; patch_b]]. *)
Definition canvas_a : Canvas := mk_canvas 0 1 1 1 1 1.

(** The canvas of [[patch_c]]. *)
Definition canvas_c : Canvas := mk_canvas 0 1 1 1 2 2.

(** A 1 by 1 patch on the grid of [patch_a], two pixels to its right
    (upper-left corner at [(2, 1)]), sample 5: between the two lies one
    canvas column that no patch covers. *)
Definition patch_d : Patch :=
  mk_patch (mk_affine 1 0 2 0 (-1) 1) (mk_ndarray 1 1 (fun _ _ => 5%R)).

(** The canvas of [[patch_a; patch_d]]. *)
Definition canvas_ad : Canvas := mk_canvas 0 1 1 1 3 1.

(** A mask that keeps nothing. *)
Definition mask_none : ndarray Z := mk_ndarray 1 1 (fun _ _ => 0).

(** Two readable rasters and an unreadable one. *)
Definition raster_one : RasterFile :=
  mk_raster_file "one_prob.tif"
    (Some (mk_dataset "EPSG:3301" (mk_affine 1 0 0 0 (-1) 1)
             (Some (mk_ndarray 1 1 (fun _ _ => 600%R))))).

Definition raster_bad : RasterFile := mk_raster_file "bad_prob.tif" None.

Definition raster_two : RasterFile :=
  mk_raster_file "two_prob.tif"
    (Some (mk_dataset "EPSG:3301" (mk_affine 1 0 1 0 (-1) 1)
             (Some (mk_ndarray 1 1 (fun _ _ => 700%R))))).

(** A stand-in for [gdal.Polygonize]: one geometry per raster, its
    number of rows. *)
Definition one_polygon (t : Affine) (mask : ndarray Z) : list Z := [nrows mask].

(** The float64 values nearest to 0.1 and to 0.3 + 2^-54, the latter
    being what [0.1 * 3] evaluates to. *)
Definition f64_tenth : Q := 7205759403792794 # 72057594037927936.
Definition f64_three_tenths : Q := 5404319552844596 # 18014398509481984.

(** A 1 by 3 patch with pixel size 0.1 whose upper-left corner is the
    origin. *)
Definition patch_e : Patch :=
  mk_patch (mk_affine f64_tenth 0 0 0 (- f64_tenth) 0)
    (mk_ndarray 1 3 (fun _ j => IZR (j + 1))).

(** The bounds rasterio reports for [patch_e]: its right bound is the
    float product [0.1 * 3].  The difference and the quotient are taken
    exactly; the float quotient, 3.0000000000000004, has the same
    ceiling. *)
Definition floats_e : Floats :=
  mk_floats Qminus Qdiv
    (fun _ => (0, - f64_tenth, f64_three_tenths, 0)%Q)
    (fun x => x) (fun x => x).

(** * Properties *)

(** ** Real-number helpers *)

Lemma half_inv : (0.5 = / 2)%R.
Proof. lra. Qed.

Lemma Rdiv_nonneg (x y : R) : (0 <= x -> 0 < y -> 0 <= x / y)%R.
Proof.
  intros Hx Hy. unfold Rdiv. apply Rmult_le_pos; [assumption|].
  left. now apply Rinv_0_lt_compat.
Qed.

Lemma ndarray_eq {A : Type} (a b : ndarray A) :
  nrows a = nrows b -> ncols a = ncols b ->
  (forall i j, cell a i j = cell b i j) -> a = b.
Proof.
  destruct a as [ha wa fa], b as [hb wb fb]; cbn.
  intros -> -> Hc. f_equal.
  extensionality i. extensionality j. apply Hc.
Qed.

(** ** The weight maps *)

Section WeightMaps.

Local Open Scope R_scope.

Lemma hanning_range (M k : Z) : 0 <= hanning M k <= 1.
Proof.
  unfold hanning. destruct (M =? 1)%Z; [lra|].
  pose proof (COS_bound (PI * IZR (1 - M + 2 * k) / IZR (M - 1))). lra.
Qed.

Lemma hanning_first (M : Z) : (2 <= M)%Z -> hanning M 0 = 0.
Proof.
  intros HM. unfold hanning.
  destruct (Z.eqb_spec M 1); [lia|].
  replace (1 - M + 2 * 0)%Z with (- (M - 1))%Z by lia.
  rewrite opp_IZR.
  assert (IZR (M - 1) <> 0) by (apply not_0_IZR; lia).
  replace (PI * - IZR (M - 1) / IZR (M - 1)) with (- PI) by (field; assumption).
  rewrite cos_neg, cos_PI. lra.
Qed.

Lemma hanning_last (M : Z) : (2 <= M)%Z -> hanning M (M - 1) = 0.
Proof.
  intros HM. unfold hanning.
  destruct (Z.eqb_spec M 1); [lia|].
  replace (1 - M + 2 * (M - 1))%Z with (M - 1)%Z by lia.
  assert (IZR (M - 1) <> 0) by (apply not_0_IZR; lia).
  replace (PI * IZR (M - 1) / IZR (M - 1)) with PI by (field; assumption).
  rewrite cos_PI. lra.
Qed.

(** The Hann window of length 2 is [[0, 0]]. *)
Lemma hanning_two (k : Z) : (0 <= k < 2)%Z -> hanning 2 k = 0.
Proof.
  intros Hk. assert (k = 0 \/ k = 2 - 1)%Z as [-> | ->] by lia.
  - apply hanning_first; lia.
  - apply hanning_last; lia.
Qed.

(** The middle entry of the Hann window of length 3 is 1. *)
Lemma hanning_three_mid : hanning 3 1 = 1.
Proof.
  unfold hanning; cbn.
  replace (PI * 0 / 2) with 0 by lra. rewrite cos_0. lra.
Qed.

Lemma hann_weight_range (h w i j : Z) : 0 <= cell (_hann_weight h w) i j <= 1.
Proof.
  cbn. pose proof (hanning_range h i). pose proof (hanning_range w j).
  split; [apply Rmult_le_pos; lra|].
  replace 1 with (1 * 1) by ring. apply Rmult_le_compat; lra.
Qed.

Lemma border_distance_bounds (h w yy xx : Z) :
  in_shape h w yy xx ->
  (0 <= border_distance h w yy xx
   /\ 2 * border_distance h w yy xx <= Z.min h w - 1)%Z.
Proof. unfold in_shape, border_distance. lia. Qed.

(** Inside the patch the clamp [np.maximum(., 0)] changes nothing. *)
Lemma distance_weight_value (h w yy xx : Z) :
  in_shape h w yy xx ->
  cell (_distance_weight h w) yy xx
  = IZR (border_distance h w yy xx) / (0.5 * IZR (Z.min h w)).
Proof.
  intros Hin. cbn. fold (border_distance h w yy xx).
  destruct (border_distance_bounds h w yy xx Hin) as [Hd0 Hd1].
  apply Rmax_left.
  assert (0 <= IZR (border_distance h w yy xx)) by (apply IZR_le; lia).
  assert (1 <= IZR (Z.min h w)) by (apply IZR_le; unfold in_shape in Hin; lia).
  apply Rdiv_nonneg; lra.
Qed.

Lemma distance_weight_range (h w yy xx : Z) :
  in_shape h w yy xx ->
  0 <= cell (_distance_weight h w) yy xx
       <= IZR (Z.min h w - 1) / IZR (Z.min h w)
  /\ IZR (Z.min h w - 1) / IZR (Z.min h w) < 1.
Proof.
  intros Hin. rewrite distance_weight_value by assumption.
  destruct (border_distance_bounds h w yy xx Hin) as [Hd0 Hd1].
  set (d := border_distance h w yy xx) in *.
  set (m := Z.min h w) in *.
  assert (Hd0' : 0 <= IZR d) by (apply IZR_le; lia).
  assert (Hm : 1 <= IZR m) by (apply IZR_le; unfold in_shape in Hin; lia).
  assert (Hd1' : 2 * IZR d <= IZR m - 1).
  { rewrite <- minus_IZR, <- mult_IZR. apply IZR_le. lia. }
  rewrite minus_IZR.
  repeat split.
  - apply Rdiv_nonneg; lra.
  - apply Rmult_le_reg_r with (IZR m); [lra|].
    replace (IZR d / (0.5 * IZR m) * IZR m) with (2 * IZR d)
      by (rewrite half_inv; field; lra).
    replace ((IZR m - 1) / IZR m * IZR m) with (IZR m - 1) by (field; lra).
    lra.
  - apply Rmult_lt_reg_r with (IZR m); [lra|].
    replace ((IZR m - 1) / IZR m * IZR m) with (IZR m - 1) by (field; lra).
    lra.
Qed.

End WeightMaps.

(** ** The exact model as an instance *)

Lemma distance_weight_exact (h w : Z) :
  Float._distance_weight exact_floats h w = _distance_weight h w.
Proof. reflexivity. Qed.

Lemma hann_weight_exact (h w : Z) :
  Float._hann_weight exact_floats h w = _hann_weight h w.
Proof. reflexivity. Qed.

Lemma weight_for_exact (blend : string) (h w : Z) :
  Float.weight_for exact_floats blend h w = weight_for blend h w.
Proof. reflexivity. Qed.

Lemma canvas_of_exact (ref : Patch) (patch_files : list Patch) :
  Float.canvas_of exact_floats ref patch_files = canvas_of ref patch_files.
Proof. reflexivity. Qed.

Lemma exact_floats_round : rounds_to_nearest exact_floats.
Proof.
  split; (split; [intros x y H; exact H | split; reflexivity]).
Qed.

(** ** The rounded weight maps *)

Lemma rounding_unit (rnd : R -> R) (x : R) :
  rounding rnd -> (0 <= x <= 1)%R -> (0 <= rnd x <= 1)%R.
Proof.
  intros (Hmono & H0 & H1) [Hx0 Hx1]. split.
  - rewrite <- H0. apply Hmono. exact Hx0.
  - rewrite <- H1. apply Hmono. exact Hx1.
Qed.

(** The quotient of line 19 is not negative, so [np.maximum] does not
    change it. *)
Lemma rounded_distance_weight_value (fl : Floats) (h w yy xx : Z) :
  rounds_to_nearest fl -> in_shape h w yy xx ->
  cell (Float._distance_weight fl h w) yy xx
  = cast16 fl (r64 fl (IZR (border_distance h w yy xx)
                       / (0.5 * IZR (Z.min h w)))%R).
Proof.
  intros [H64 H16] Hin. cbn. fold (border_distance h w yy xx).
  destruct (border_distance_bounds h w yy xx Hin) as [Hd0 Hd1].
  f_equal. apply Rmax_left.
  destruct H64 as (Hmono & H0 & _). rewrite <- H0 at 1. apply Hmono.
  assert (0 <= IZR (border_distance h w yy xx))%R by (apply IZR_le; lia).
  assert (1 <= IZR (Z.min h w))%R
    by (apply IZR_le; unfold in_shape in Hin; lia).
  apply Rdiv_nonneg; lra.
Qed.

(** C3 (amended).  For every cell [(yy, xx)] of an [h] by [w] patch the
    "smooth" weight is the distance to the nearest of the four borders
    divided by half the shorter dimension, rounded to float64 and cast
    to float16.  However these two round (to nearest), the weight lies
    in [[0, 1]], is exactly 0 on the outermost border ring, and does
    not decrease with the distance to the border; at the center cell of
    a patch with odd height and width it is [(m - 1) / m] with
    [m = min h w], rounded in the same way. *)
Theorem distance_weight_spec (fl : Floats) (h w yy xx : Z) :
  rounds_to_nearest fl -> in_shape h w yy xx ->
  let weight := Float._distance_weight fl h w in
  let v := cell weight yy xx in
  let m := Z.min h w in
  nrows weight = h /\ ncols weight = w
  /\ v = cast16 fl (r64 fl (IZR (border_distance h w yy xx) / (0.5 * IZR m))%R)
  /\ (0 <= v <= 1)%R
  /\ (yy = 0 \/ yy = h - 1 \/ xx = 0 \/ xx = w - 1 -> v = 0%R)
  /\ (h = 2 * yy + 1 -> w = 2 * xx + 1 ->
      v = cast16 fl (r64 fl (IZR (m - 1) / IZR m)%R))
  /\ (forall yy' xx', in_shape h w yy' xx' ->
        border_distance h w yy' xx' <= border_distance h w yy xx ->
        (cell weight yy' xx' <= v)%R).
Proof.
  intros Hfl Hin weight v m.
  pose proof (rounded_distance_weight_value fl h w yy xx Hfl Hin) as Hv.
  fold weight in Hv. fold v in Hv. fold m in Hv.
  pose proof (distance_weight_value h w yy xx Hin) as Hx.
  pose proof (distance_weight_range h w yy xx Hin) as [[Hlo Hhi] Hlt].
  rewrite Hx in Hlo, Hhi. fold m in Hlo, Hhi, Hlt.
  assert (Hm : (1 <= IZR m)%R) by (apply IZR_le; unfold in_shape in Hin; lia).
  destruct Hfl as [H64 H16].
  split; [cbn; unfold in_shape in Hin; lia|].
  split; [cbn; unfold in_shape in Hin; lia|].
  split; [exact Hv|].
  split.
  { rewrite Hv. apply rounding_unit; [exact H16|].
    apply rounding_unit; [exact H64|]. lra. }
  split.
  { intros Hb. rewrite Hv.
    replace (border_distance h w yy xx) with 0
      by (unfold border_distance, in_shape in *; lia).
    rewrite Rdiv_0_l. destruct H64 as (_ & -> & _). apply H16. }
  split.
  { intros Hh Hw. rewrite Hv. do 2 f_equal.
    assert (Hd : (2 * IZR (border_distance h w yy xx) = IZR (m - 1))%R).
    { rewrite <- mult_IZR. f_equal.
      unfold border_distance, m, in_shape in *. lia. }
    rewrite <- Hd, half_inv. field. lra. }
  intros yy' xx' Hin' Hle. rewrite Hv. unfold weight.
  rewrite (rounded_distance_weight_value fl h w yy' xx')
    by (assumption || (split; assumption)).
  fold m. apply H16. apply H64.
  apply Rmult_le_compat_r.
  - apply Rlt_le, Rinv_0_lt_compat. lra.
  - apply IZR_le. exact Hle.
Qed.

Lemma distance_weight_spec_witness :
  cell (Float._distance_weight exact_floats 3 3) 1 1
  = (IZR (Z.min 3 3 - 1) / IZR (Z.min 3 3))%R
  /\ (cell (Float._distance_weight exact_floats 3 3) 0 2
      <= cell (Float._distance_weight exact_floats 3 3) 1 1)%R.
Proof.
  assert (Hin : in_shape 3 3 1 1) by (unfold in_shape; lia).
  pose proof (distance_weight_spec exact_floats 3 3 1 1 exact_floats_round Hin)
    as (_ & _ & _ & _ & _ & Hc & Hmax).
  split.
  - apply Hc; reflexivity.
  - apply Hmax; [unfold in_shape; lia | cbn; lia].
Defined.

(** C3 as stated fails: the center cell of a 3 by 3 patch has weight
    [2 / 3], not 1. *)
Lemma distance_weight_center_below_one :
  cell (_distance_weight 3 3) 1 1 = (2 / 3)%R
  /\ cell (_distance_weight 3 3) 1 1 <> 1%R.
Proof.
  assert (H : cell (_distance_weight 3 3) 1 1 = (2 / 3)%R).
  { rewrite distance_weight_value by (unfold in_shape; lia).
    cbn. rewrite half_inv. field. }
  split; [exact H | rewrite H; lra].
Qed.

(** In each known mode every cell of the weight map lies in [[0, 1]]. *)
Lemma weight_for_range (blend : string) (h w : Z) (weight : ndarray R)
  (i j : Z) :
  known_blend blend -> weight_for blend h w = Ok weight ->
  in_shape h w i j -> (0 <= cell weight i j <= 1)%R.
Proof.
  intros [-> | [-> | ->]] Hwt Hin.
  - unfold weight_for, np_ones, np_full in Hwt.
    cbn [String.eqb Ascii.eqb Bool.eqb] in Hwt.
    destruct ((h <? 0) || (w <? 0)); [discriminate|].
    injection Hwt as <-. cbn. lra.
  - injection Hwt as <-. pose proof (distance_weight_range h w i j Hin). lra.
  - injection Hwt as <-. apply hann_weight_range.
Qed.

(** Rounding keeps the weights in [[0, 1]] and keeps their zeros. *)
Lemma rounded_weights (fl : Floats) (blend : string) (h w : Z)
  (weight : ndarray R) (i j : Z) :
  rounds_to_nearest fl -> known_blend blend ->
  weight_for blend h w = Ok weight -> in_shape h w i j ->
  exists weight',
    Float.weight_for fl blend h w = Ok weight'
    /\ nrows weight' = nrows weight /\ ncols weight' = ncols weight
    /\ (0 <= cell weight' i j <= 1)%R
    /\ (cell weight i j = 0%R -> cell weight' i j = 0%R).
Proof.
  intros Hfl Hk Hwt Hin.
  pose proof (weight_for_range blend h w weight i j Hk Hwt Hin) as Hr.
  destruct Hfl as [H64 H16].
  destruct Hk as [-> | [-> | ->]].
  - exists weight. split; [exact Hwt|]. repeat split; try apply Hr. auto.
  - injection Hwt as <-. eexists. split; [reflexivity|].
    split; [reflexivity|]. split; [reflexivity|].
    rewrite rounded_distance_weight_value
      by (assumption || (split; assumption)).
    rewrite distance_weight_value in Hr by assumption.
    rewrite distance_weight_value by assumption.
    split.
    + apply rounding_unit; [exact H16|].
      apply rounding_unit; [exact H64 | exact Hr].
    + intros ->. destruct H64 as (_ & -> & _). apply H16.
  - injection Hwt as <-. eexists. split; [reflexivity|].
    split; [reflexivity|]. split; [reflexivity|].
    cbn [cell Float._hann_weight _hann_weight] in *. split.
    + apply rounding_unit; [exact H16|].
      apply rounding_unit; [exact H64 | exact Hr].
    + intros ->. destruct H64 as (_ & -> & _). apply H16.
Qed.

(** C8 (amended).  For each of the three modes and every shape, the
    weight map has the patch's shape and every cell lies in [[0, 1]];
    the "average" map is 1 everywhere; the "hann" map is 0 on row 0 and
    the last row when the patch has at least two rows, and on column 0
    and the last column when it has at least two columns. *)
Theorem weight_maps_spec (blend : string) (h w : Z) :
  known_blend blend -> 0 <= h -> 0 <= w ->
  exists weight,
    weight_for blend h w = Ok weight
    /\ nrows weight = h /\ ncols weight = w
    /\ (forall i j, in_shape h w i j -> (0 <= cell weight i j <= 1)%R)
    /\ (blend = "average"%string -> forall i j, cell weight i j = 1%R)
    /\ (blend = "hann"%string -> forall i j,
          (2 <= h -> i = 0 \/ i = h - 1 -> cell weight i j = 0%R)
          /\ (2 <= w -> j = 0 \/ j = w - 1 -> cell weight i j = 0%R)).
Proof.
  intros [-> | [-> | ->]] Hh Hw.
  - exists (mk_ndarray h w (fun _ _ => 1%R)).
    unfold weight_for, np_ones, np_full; cbn.
    destruct (Z.ltb_spec h 0); [lia|].
    destruct (Z.ltb_spec w 0); [lia|]. cbn.
    repeat split; try discriminate; intros; lra.
  - exists (_distance_weight h w).
    repeat split; try discriminate.
    + cbn; lia.
    + cbn; lia.
    + apply (distance_weight_range h w i j H).
    + pose proof (distance_weight_range h w i j H). lra.
  - exists (_hann_weight h w).
    repeat split; try discriminate.
    + cbn. unfold hanning_len. destruct (Z.ltb_spec h 1); lia.
    + cbn. unfold hanning_len. destruct (Z.ltb_spec w 1); lia.
    + apply hann_weight_range.
    + apply hann_weight_range.
    + intros H2 [-> | ->]; cbn;
        [rewrite hanning_first by assumption
        | rewrite hanning_last by assumption]; ring.
    + intros H2 [-> | ->]; cbn;
        [rewrite hanning_first by assumption
        | rewrite hanning_last by assumption]; ring.
Qed.

Lemma weight_maps_spec_witness :
  exists weight,
    weight_for "hann" 3 4 = Ok weight
    /\ nrows weight = 3 /\ ncols weight = 4
    /\ cell weight 0 2 = 0%R.
Proof.
  destruct (weight_maps_spec "hann" 3 4) as (wm & H1 & H2 & H3 & _ & _ & H6).
  - right; right; reflexivity.
  - lia.
  - lia.
  - exists wm. repeat split; try assumption.
    apply (proj1 (H6 eq_refl 0 2)); [lia | left; reflexivity].
Defined.

(** C8 as stated fails: [np.hanning(1)] is [[1.]], so on a patch with a
    single row the "hann" map is not 0 on row 0 (which is also the last
    row). *)
Lemma hann_single_row_not_zero :
  weight_for "hann" 1 3 = Ok (_hann_weight 1 3)
  /\ cell (_hann_weight 1 3) 0 1 = 1%R
  /\ cell (_hann_weight 1 3) 0 1 <> 0%R.
Proof.
  assert (H : cell (_hann_weight 1 3) 0 1 = 1%R).
  { cbn [_hann_weight cell]. rewrite hanning_three_mid.
    unfold hanning; cbn. ring. }
  repeat split; [exact H | rewrite H; lra].
Qed.

(** ** The accumulation loop *)


Lemma iadd_window_eq (a : ndarray R) (r0 r1 c0 c1 : Z) (rhs : ndarray R) :
  iadd_window a r0 r1 c0 c1 rhs
  = if window_ok (nrows a) (ncols a) r0 r1 c0 c1 (nrows rhs) (ncols rhs)
    then Ok (add_cells a (window_term (nrows a) (ncols a) r0 r1 c0 c1 rhs))
    else Raise ValueError.
Proof.
  unfold iadd_window, window_ok.
  destruct (slice_bounds (nrows a) r0 r1) as [rs rl] eqn:Er.
  destruct (slice_bounds (ncols a) c0 c1) as [cs cl] eqn:Ec. cbn [fst snd].
  destruct (broadcastable (nrows rhs) rl && broadcastable (ncols rhs) cl);
    [|reflexivity].
  f_equal. apply ndarray_eq; [reflexivity | reflexivity |].
  intros i j. cbn [cell add_cells]. unfold window_term.
  rewrite Er, Ec. cbn [fst].
  destruct (in_slice (nrows a) r0 r1 i && in_slice (ncols a) c0 c1 j);
    [reflexivity | ring].
Qed.


Lemma add_cells_zero (a : ndarray R) (d : Z -> Z -> R) :
  (forall i j, d i j = 0%R) -> add_cells a d = a.
Proof.
  intros Hd. apply ndarray_eq; cbn; try reflexivity.
  intros i j. rewrite Hd. ring.
Qed.

(** An iteration either raises or adds its terms to the accumulators. *)
Lemma blend_step_delta blend cv st src :
  blend_step blend cv st src
  = (d <- step_delta blend cv st src ;; Ok (add_delta st d)).
Proof.
  destruct st as [acc weight_sum].
  unfold blend_step, step_delta, patch_terms, height, width.
  destruct (weight_for blend _ _) as [weight|e]; cbn [bind]; [|reflexivity].
  destruct (offsets cv src) as [[r c]|e]; cbn [bind]; [|reflexivity].
  rewrite !iadd_window_eq. cbn [np_mul nrows ncols].
  destruct (window_ok (nrows acc) _ _ _ _ _ _ _); cbn [bind andb];
    [|reflexivity].
  destruct (window_ok (nrows weight_sum) _ _ _ _ _ _ _); reflexivity.
Qed.



Lemma add_delta_shape H W st d :
  has_shape H W st -> has_shape H W (add_delta st d).
Proof. intros Hs. exact Hs. Qed.

Lemma blend_step_shape blend cv H W st src st' :
  has_shape H W st -> blend_step blend cv st src = Ok st' -> has_shape H W st'.
Proof.
  intros Hs. rewrite blend_step_delta.
  destruct (step_delta blend cv st src) as [d|e]; cbn [bind]; [|discriminate].
  intros [= <-]. now apply add_delta_shape.
Qed.

Lemma blend_loop_shape blend cv H W l :
  forall st st',
    has_shape H W st -> blend_loop blend cv l st = Ok st' -> has_shape H W st'.
Proof.
  induction l as [|src l IH]; intros st st' Hs; cbn [blend_loop].
  - now intros [= <-].
  - destruct (blend_step blend cv st src) as [st1|e] eqn:E; cbn [bind];
      [|discriminate].
    apply IH. eapply blend_step_shape; eassumption.
Qed.




(** ** Slices and windows *)

Lemma slice_bounds_fits (len r h : Z) :
  0 <= r -> 0 <= h -> r + h <= len -> slice_bounds len r (r + h) = (r, h).
Proof.
  intros Hr Hh Hfit. unfold slice_bounds, slice_index.
  destruct (Z.ltb_spec r 0); [lia|].
  destruct (Z.ltb_spec (r + h) 0); [lia|].
  f_equal; lia.
Qed.

Lemma slice_bounds_overflow (len r h : Z) :
  0 <= len -> 0 <= r -> 1 <= h -> len < r + h ->
  snd (slice_bounds len r (r + h)) = Z.max 0 (len - r)
  /\ snd (slice_bounds len r (r + h)) < h.
Proof.
  intros Hl Hr Hh Hover. unfold slice_bounds, slice_index. cbn [snd].
  destruct (Z.ltb_spec r 0); [lia|].
  destruct (Z.ltb_spec (r + h) 0); lia.
Qed.

Lemma in_slice_empty (len start stop i : Z) :
  snd (slice_bounds len start stop) = 0 -> in_slice len start stop i = false.
Proof.
  unfold in_slice. destruct (slice_bounds len start stop) as [s l]. cbn [snd].
  intros ->. destruct (Z.leb_spec s i), (Z.ltb_spec i (s + 0)); cbn; lia.
Qed.

Lemma in_slice_fits (len r h i : Z) :
  0 <= r -> 0 <= h -> r + h <= len ->
  in_slice len r (r + h) i = (r <=? i) && (i <? r + h).
Proof.
  intros. unfold in_slice. now rewrite slice_bounds_fits.
Qed.

Lemma window_term_outside (H W r0 r1 c0 c1 : Z) (rhs : ndarray R) (i j : Z) :
  in_slice H r0 r1 i && in_slice W c0 c1 j = false ->
  window_term H W r0 r1 c0 c1 rhs i j = 0%R.
Proof. unfold window_term. now intros ->. Qed.

Lemma broadcastable_true (n len : Z) :
  broadcastable n len = true <-> n = len \/ n = 1.
Proof.
  unfold broadcastable. rewrite orb_true_iff, !Z.eqb_eq. tauto.
Qed.

Lemma broadcastable_false (n len : Z) :
  broadcastable n len = false <-> n <> len /\ n <> 1.
Proof.
  unfold broadcastable. rewrite orb_false_iff, !Z.eqb_neq. tauto.
Qed.

(** Each known mode yields a weight map of the patch's shape. *)
Lemma weight_for_shape (blend : string) (h w : Z) :
  known_blend blend -> 0 <= h -> 0 <= w ->
  exists weight,
    weight_for blend h w = Ok weight /\ nrows weight = h /\ ncols weight = w.
Proof.
  intros [-> | [-> | ->]] Hh Hw.
  - exists (mk_ndarray h w (fun _ _ => 1%R)).
    unfold weight_for, np_ones, np_full; cbn.
    destruct (Z.ltb_spec h 0); [lia|].
    destruct (Z.ltb_spec w 0); [lia|]. cbn. auto.
  - exists (_distance_weight h w). cbn. repeat split; lia.
  - exists (_hann_weight h w). cbn. unfold hanning_len.
    destruct (Z.ltb_spec h 1), (Z.ltb_spec w 1); repeat split; lia.
Qed.

(** C1 (amended).  Take a patch of one of the three modes, with at
    least one row and one column and non-negative offsets, whose window
    extends beyond the canvas.  The code has no geometry check of its
    own: numpy clips the slice to the canvas.  If the patch has two or
    more rows on an exceeded row axis, or two or more columns on an
    exceeded column axis, the in-place addition raises [ValueError]
    (shape mismatch).  Otherwise the patch has a single row or column
    on each exceeded axis, the clipped window is empty and the
    iteration succeeds, leaving both accumulators as they were.  An
    iteration that succeeds keeps the shape of the accumulators: nothing
    is written outside them. *)
Theorem out_of_canvas_patch (blend : string) (cv : Canvas)
  (st : ndarray R * ndarray R) (src : Patch) (r c : Z) :
  let H := cv_height cv in
  let W := cv_width cv in
  let h := height src in
  let w := width src in
  known_blend blend ->
  has_shape H W st -> 0 <= H -> 0 <= W ->
  1 <= h -> 1 <= w ->
  offsets cv src = Ok (r, c) -> 0 <= r -> 0 <= c ->
  H < r + h \/ W < c + w ->
  ((2 <= h /\ H < r + h) \/ (2 <= w /\ W < c + w) ->
     blend_step blend cv st src = Raise ValueError)
  /\ (~ ((2 <= h /\ H < r + h) \/ (2 <= w /\ W < c + w)) ->
     blend_step blend cv st src = Ok st)
  /\ (forall st', blend_step blend cv st src = Ok st' -> has_shape H W st').
Proof.
  intros H W h w Hb Hs HH HW Hh Hw Hoff Hr Hc Hout.
  destruct (weight_for_shape blend h w Hb) as (weight & Hwt & Hwr & Hwc);
    [lia | lia |].
  destruct st as [acc weight_sum].
  destruct Hs as (Ha1 & Ha2 & Hs1 & Hs2). cbn [fst snd] in *.
  assert (Hstep : step_delta blend cv (acc, weight_sum) src
    = if window_ok H W r (r + h) c (c + w) h w
      then Ok (window_term H W r (r + h) c (c + w) (np_mul (band1 src) weight),
               window_term H W r (r + h) c (c + w) weight)
      else Raise ValueError).
  { unfold step_delta, patch_terms. fold h w. rewrite Hwt, Hoff. cbn [bind].
    rewrite Ha1, Ha2, Hs1, Hs2, Hwr, Hwc.
    destruct (window_ok H W r (r + h) c (c + w) h w); reflexivity. }
  split; [|split].
  - intros Hbad. rewrite blend_step_delta, Hstep.
    replace (window_ok H W r (r + h) c (c + w) h w) with false; [reflexivity|].
    symmetry. unfold window_ok. apply andb_false_iff.
    destruct Hbad as [[H2 Ho] | [H2 Ho]]; [left | right];
      apply broadcastable_false;
      [ destruct (slice_bounds_overflow H r h) as [_ Hlt]
      | destruct (slice_bounds_overflow W c w) as [_ Hlt] ]; lia.
  - intros Hgood. rewrite blend_step_delta, Hstep.
    assert (Hrow : H < r + h -> h = 1) by lia.
    assert (Hcol : W < c + w -> w = 1) by lia.
    assert (Hrl : snd (slice_bounds H r (r + h)) = h
                  \/ (h = 1 /\ snd (slice_bounds H r (r + h)) = 0)).
    { destruct (Z_lt_le_dec H (r + h)) as [Ho | Hfit].
      - right. split; [auto|].
        destruct (slice_bounds_overflow H r h) as [Heq _]; lia.
      - left. rewrite slice_bounds_fits by lia. reflexivity. }
    assert (Hcl : snd (slice_bounds W c (c + w)) = w
                  \/ (w = 1 /\ snd (slice_bounds W c (c + w)) = 0)).
    { destruct (Z_lt_le_dec W (c + w)) as [Ho | Hfit].
      - right. split; [auto|].
        destruct (slice_bounds_overflow W c w) as [Heq _]; lia.
      - left. rewrite slice_bounds_fits by lia. reflexivity. }
    replace (window_ok H W r (r + h) c (c + w) h w) with true.
    2:{ symmetry. unfold window_ok. apply andb_true_iff.
        split; apply broadcastable_true; lia. }
    cbn [bind]. f_equal. unfold add_delta. cbn [fst snd].
    assert (Hempty : forall i j,
      in_slice H r (r + h) i && in_slice W c (c + w) j = false).
    { intros i j. apply andb_false_iff.
      destruct Hout as [Ho | Ho]; [left | right]; apply in_slice_empty.
      - destruct (slice_bounds_overflow H r h) as [Heq _]; lia.
      - destruct (slice_bounds_overflow W c w) as [Heq _]; lia. }
    f_equal; apply add_cells_zero; intros i j;
      apply window_term_outside, Hempty.
  - intros st'. apply blend_step_shape. repeat split; assumption.
Qed.

Lemma out_of_canvas_patch_witness :
  blend_step "average" canvas_a (zero_state canvas_a) patch_b
  = Ok (zero_state canvas_a).
Proof.
  apply (out_of_canvas_patch "average" canvas_a (zero_state canvas_a)
           patch_b 0 1);
    cbn; try lia.
  - left; reflexivity.
  - repeat split.
  - reflexivity.
Defined.

(** C1 as stated fails: [patch_b] has column offset 1 in a canvas of
    width 1, so its window lies outside the canvas, yet the accumulation
    raises nothing and the accumulators hold the contribution of
    [patch_a] alone. *)
Lemma misaligned_patch_silently_dropped :
  exists cv acc weight_sum,
    accumulate [patch_a; patch_b] "average" = Ok (cv, (acc, weight_sum))
    /\ offsets cv patch_b = Ok (0, 1)
    /\ cv_width cv < 1 + width patch_b
    /\ cell acc 0 0 = 7%R /\ cell weight_sum 0 0 = 1%R.
Proof.
  do 3 eexists. split; [cbv; reflexivity|].
  split; [reflexivity|]. split; [reflexivity|].
  cbn. split; ring.
Qed.

(** ** Normalization *)

Lemma np_divide_pos (a b : R) : (0 < b)%R -> np_divide a b = Finite (a / b).
Proof.
  intros Hb. unfold np_divide. destruct (Req_dec_T b 0); [lra | reflexivity].
Qed.

Lemma normalize_cell (acc weight_sum : ndarray R) (i j : Z) :
  cell (normalize acc weight_sum) i j
  = if Rlt_dec 0 (cell weight_sum i j)
    then Finite (cell acc i j / cell weight_sum i j)
    else Finite 0.
Proof.
  cbn. destruct (Rlt_dec 0 (cell weight_sum i j)); [|reflexivity].
  now apply np_divide_pos.
Qed.

(** C5.  The normalized array has the shape of the accumulators; each
    of its cells is [acc / weight_sum] where [weight_sum > 0] and 0
    elsewhere; no cell is NaN or an infinity, also after the optional
    mask. *)
Theorem normalize_spec (acc weight_sum : ndarray R) (i j : Z) :
  let result := normalize acc weight_sum in
  nrows result = nrows acc /\ ncols result = ncols acc
  /\ ((0 < cell weight_sum i j)%R ->
      cell result i j = Finite (cell acc i j / cell weight_sum i j))
  /\ (~ (0 < cell weight_sum i j)%R -> cell result i j = Finite 0)
  /\ (exists x, cell result i j = Finite x)
  /\ (forall mask_file, exists x,
        cell (apply_mask mask_file result) i j = Finite x).
Proof.
  intros result. pose proof (normalize_cell acc weight_sum i j) as Hc.
  fold result in Hc.
  split; [reflexivity|]. split; [reflexivity|]. repeat split.
  - intros Hpos. rewrite Hc. destruct (Rlt_dec 0 (cell weight_sum i j));
      [reflexivity | contradiction].
  - intros Hnot. rewrite Hc. destruct (Rlt_dec 0 (cell weight_sum i j));
      [contradiction | reflexivity].
  - rewrite Hc. destruct (Rlt_dec 0 (cell weight_sum i j)); eauto.
  - intros [mask_data|]; cbn [apply_mask cell]; rewrite Hc;
      destruct (Rlt_dec 0 (cell weight_sum i j)); cbn [fmul_bool];
      try destruct (cell mask_data i j =? 1); cbn [fmul_bool]; eauto.
Qed.

(** ** Quantization *)

Lemma Rtrunc_nonneg (x : R) : (0 <= x)%R -> Rtrunc x = Int_part x.
Proof.
  intros Hx. unfold Rtrunc. destruct (Rle_dec 0 x); [reflexivity | contradiction].
Qed.

Lemma Int_part_IZR (n : Z) : Int_part (IZR n) = n.
Proof. symmetry. apply Int_part_spec. lra. Qed.

Lemma Int_part_range (x : R) (n : Z) :
  (0 <= x <= IZR n)%R -> 0 <= Int_part x <= n.
Proof.
  intros [Hlo Hhi]. destruct (base_Int_part x) as [H1 H2]. split.
  - assert (IZR (-1) < IZR (Int_part x))%R by lra.
    apply lt_IZR in H. lia.
  - apply le_IZR. lra.
Qed.

Lemma clip_range (lo hi x : R) :
  (lo <= hi)%R -> (lo <= Rmin (Rmax x lo) hi <= hi)%R.
Proof.
  intros Hle. split.
  - apply Rmin_glb; [apply Rmax_r | assumption].
  - apply Rmin_r.
Qed.

Lemma quantize_clipped (bits n : Z) (v : R) :
  0 <= n < 2 ^ bits ->
  astype_uint bits (np_clip 0 (IZR n) (Finite v))
  = Rtrunc (Rmin (Rmax v 0) (IZR n))
  /\ 0 <= Rtrunc (Rmin (Rmax v 0) (IZR n)) <= n.
Proof.
  intros Hn. cbn [np_clip astype_uint].
  assert (Hr : (0 <= Rmin (Rmax v 0) (IZR n) <= IZR n)%R).
  { apply clip_range. apply (IZR_le 0 n). lia. }
  rewrite Rtrunc_nonneg by apply Hr.
  pose proof (Int_part_range _ n Hr).
  split; [apply Z.mod_small; lia | assumption].
Qed.

(** C9.  Quantization to [uint16] (to [uint8]) is the cast of
    [min(max(v, 0), 65535)] (of [min(max(v, 0), 255)]); the result lies
    in the range of the type, so the cast never wraps; 70000 maps to
    65535 and -5 to 0. *)
Theorem quantize_saturates (v : R) :
  (quantize_uint16 (Finite v) = Rtrunc (Rmin (Rmax v 0) 65535)
   /\ 0 <= quantize_uint16 (Finite v) <= 65535)
  /\ (quantize_uint8 (Finite v) = Rtrunc (Rmin (Rmax v 0) 255)
      /\ 0 <= quantize_uint8 (Finite v) <= 255)
  /\ ((65535 <= v)%R -> quantize_uint16 (Finite v) = 65535)
  /\ ((255 <= v)%R -> quantize_uint8 (Finite v) = 255)
  /\ ((v <= 0)%R ->
      quantize_uint16 (Finite v) = 0 /\ quantize_uint8 (Finite v) = 0)
  /\ quantize_uint16 (Finite 70000) = 65535
  /\ quantize_uint16 (Finite (-5)) = 0
  /\ (forall result : ndarray fval,
        convert_dtype "uint16" result
        = UIntData 16 (map_array quantize_uint16 result)
        /\ convert_dtype "uint8" result
           = UIntData 8 (map_array quantize_uint8 result)).
Proof.
  assert (H16 : forall x, quantize_uint16 (Finite x)
                          = Rtrunc (Rmin (Rmax x 0) 65535)
                          /\ 0 <= Rtrunc (Rmin (Rmax x 0) 65535) <= 65535).
  { intros x. apply (quantize_clipped 16 65535 x). lia. }
  assert (H8 : forall x, quantize_uint8 (Finite x)
                         = Rtrunc (Rmin (Rmax x 0) 255)
                         /\ 0 <= Rtrunc (Rmin (Rmax x 0) 255) <= 255).
  { intros x. apply (quantize_clipped 8 255 x). lia. }
  assert (Hhi16 : forall x, (65535 <= x)%R -> quantize_uint16 (Finite x) = 65535).
  { intros x Hx. rewrite (proj1 (H16 x)).
    rewrite Rmax_left by lra. rewrite Rmin_right by lra.
    rewrite Rtrunc_nonneg by lra. apply Int_part_IZR. }
  assert (Hlo16 : forall x, (x <= 0)%R -> quantize_uint16 (Finite x) = 0).
  { intros x Hx. rewrite (proj1 (H16 x)).
    rewrite Rmax_right by lra. rewrite Rmin_left by lra.
    rewrite Rtrunc_nonneg by lra. apply Int_part_IZR. }
  assert (Hhi8 : forall x, (255 <= x)%R -> quantize_uint8 (Finite x) = 255).
  { intros x Hx. rewrite (proj1 (H8 x)).
    rewrite Rmax_left by lra. rewrite Rmin_right by lra.
    rewrite Rtrunc_nonneg by lra. apply Int_part_IZR. }
  assert (Hlo8 : forall x, (x <= 0)%R -> quantize_uint8 (Finite x) = 0).
  { intros x Hx. rewrite (proj1 (H8 x)).
    rewrite Rmax_right by lra. rewrite Rmin_left by lra.
    rewrite Rtrunc_nonneg by lra. apply Int_part_IZR. }
  split; [|split; [|split; [|split; [|split; [|split; [|split]]]]]].
  - split; [apply H16 | rewrite (proj1 (H16 v)); apply H16].
  - split; [apply H8 | rewrite (proj1 (H8 v)); apply H8].
  - apply Hhi16.
  - apply Hhi8.
  - intros Hv. split; [now apply Hlo16 | now apply Hlo8].
  - apply Hhi16. lra.
  - apply Hlo16. lra.
  - intros result. split; reflexivity.
Qed.

(** ** The canvas *)

Section Extremum.

Variable f : Q -> Q -> Q.
Variable le : Q -> Q -> Prop.
Hypothesis f_select : forall x y, f x y = x \/ f x y = y.
Hypothesis f_le_l : forall x y, le (f x y) x.
Hypothesis f_le_r : forall x y, le (f x y) y.
Hypothesis le_trans : forall x y z, le x y -> le y z -> le x z.

(** Folding [upd f] from a first value [m0] selects an element below
    all the others. *)
Lemma fold_upd_extremum (g : Patch -> Q) (l : list Patch) :
  forall m0, exists m,
    fold_left (fun cur src => upd f cur (g src)) l (Some m0) = Some m
    /\ (m = m0 \/ In m (map g l))
    /\ le m m0
    /\ Forall (le m) (map g l).
Proof.
  induction l as [|src l IH]; intros m0; cbn [fold_left map upd].
  - exists m0. repeat split; auto.
    destruct (f_select m0 m0) as [E | E]; rewrite <- E at 1; apply f_le_l.
  - destruct (IH (f m0 (g src))) as (m & Hf & Hin & Hle & Hall).
    exists m. repeat split.
    + exact Hf.
    + destruct Hin as [-> | Hin].
      * destruct (f_select m0 (g src)) as [-> | ->]; [left | right; left];
          reflexivity.
      * right; right; exact Hin.
    + eapply le_trans; [exact Hle | apply f_le_l].
    + constructor; [|exact Hall].
      eapply le_trans; [exact Hle | apply f_le_r].
Qed.

End Extremum.

Lemma py_min_select (x y : Q) : py_min x y = x \/ py_min x y = y.
Proof. unfold py_min. destruct (Qlt_le_dec y x); auto. Qed.

Lemma py_max_select (x y : Q) : py_max x y = x \/ py_max x y = y.
Proof. unfold py_max. destruct (Qlt_le_dec x y); auto. Qed.

Lemma py_min_le_l (x y : Q) : (py_min x y <= x)%Q.
Proof.
  unfold py_min. destruct (Qlt_le_dec y x);
    [now apply Qlt_le_weak | apply Qle_refl].
Qed.

Lemma py_min_le_r (x y : Q) : (py_min x y <= y)%Q.
Proof. unfold py_min. destruct (Qlt_le_dec y x); [apply Qle_refl | assumption]. Qed.

Lemma py_max_ge_l (x y : Q) : (x <= py_max x y)%Q.
Proof.
  unfold py_max. destruct (Qlt_le_dec x y);
    [now apply Qlt_le_weak | apply Qle_refl].
Qed.

Lemma py_max_ge_r (x y : Q) : (y <= py_max x y)%Q.
Proof. unfold py_max. destruct (Qlt_le_dec x y); [apply Qle_refl | assumption]. Qed.

Lemma fold_min (g : Patch -> Q) (src : Patch) (l : list Patch) :
  exists m,
    fold_left (fun cur s => upd py_min cur (g s)) (src :: l) None = Some m
    /\ is_min m (map g (src :: l)).
Proof.
  cbn [fold_left upd].
  destruct (fold_upd_extremum py_min Qle py_min_select py_min_le_l py_min_le_r
              Qle_trans g l (g src)) as (m & Hf & Hin & Hle & Hall).
  exists m. split; [exact Hf|]. split.
  - cbn [map In]. destruct Hin; auto.
  - cbn [map]. constructor; assumption.
Qed.

Lemma fold_max (g : Patch -> Q) (src : Patch) (l : list Patch) :
  exists m,
    fold_left (fun cur s => upd py_max cur (g s)) (src :: l) None = Some m
    /\ is_max m (map g (src :: l)).
Proof.
  cbn [fold_left upd].
  destruct (fold_upd_extremum py_max (fun x y => Qle y x) py_max_select
              py_max_ge_l py_max_ge_r
              (fun x y z Hxy Hyz => Qle_trans _ _ _ Hyz Hxy) g l (g src))
    as (m & Hf & Hin & Hle & Hall).
  exists m. split; [exact Hf|]. split.
  - cbn [map In]. destruct Hin; auto.
  - cbn [map]. constructor; assumption.
Qed.

(** The loop at lines 72-79 updates its four variables independently. *)
Lemma output_bounds_components (l : list Patch) :
  forall a b c d,
    fold_left bounds_step l (a, b, c, d)
    = (fold_left (fun cur s => upd py_min cur (b_left s)) l a,
       fold_left (fun cur s => upd py_min cur (b_bottom s)) l b,
       fold_left (fun cur s => upd py_max cur (b_right s)) l c,
       fold_left (fun cur s => upd py_max cur (b_top s)) l d).
Proof.
  induction l as [|src l IH]; intros a b c d; cbn [fold_left]; [reflexivity|].
  unfold bounds_step at 2, b_left, b_bottom, b_right, b_top.
  destruct (bounds src) as [[[x0 y0] x1] y1]. cbn [fst snd]. apply IH.
Qed.

Lemma py_div_nonzero (x y : Q) : ~ (y == 0)%Q -> py_div x y = Ok (x / y)%Q.
Proof.
  intros Hy. unfold py_div.
  destruct (Qeq_bool y 0) eqn:E; [|reflexivity].
  apply Qeq_bool_iff in E. contradiction.
Qed.

Lemma rounded_output_bounds_components (fl : Floats) (l : list Patch) :
  forall a b c d,
    fold_left (Float.bounds_step fl) l (a, b, c, d)
    = (fold_left (fun cur s => upd py_min cur (Float.b_left fl s)) l a,
       fold_left (fun cur s => upd py_min cur (Float.b_bottom fl s)) l b,
       fold_left (fun cur s => upd py_max cur (Float.b_right fl s)) l c,
       fold_left (fun cur s => upd py_max cur (Float.b_top fl s)) l d).
Proof.
  induction l as [|src l IH]; intros a b c d; cbn [fold_left]; [reflexivity|].
  unfold Float.bounds_step at 2, Float.b_left, Float.b_bottom, Float.b_right,
    Float.b_top.
  destruct (src_bounds fl src) as [[[x0 y0] x1] y1]. cbn [fst snd]. apply IH.
Qed.

Lemma rounded_py_div_nonzero (fl : Floats) (x y : Q) :
  ~ (y == 0)%Q -> Float.py_div fl x y = Ok (f64_div fl x y).
Proof.
  intros Hy. unfold Float.py_div.
  destruct (Qeq_bool y 0) eqn:E; [|reflexivity].
  apply Qeq_bool_iff in E. contradiction.
Qed.

(** C7.  For a non-empty patch list whose reference patch has non-zero
    pixel sizes, the canvas width is [ceil((maxx - minx) / pixel_size_x)]
    and its height [ceil((maxy - miny) / pixel_size_y)], the difference
    and the quotient being Python's on floats, where [minx], [miny] are
    the least left and bottom bounds that rasterio reports over all
    patches, [maxx], [maxy] the greatest right and top bounds, and the
    pixel sizes are those of the first patch. *)
Theorem canvas_size (fl : Floats) (ref : Patch) (rest : list Patch) :
  let patch_files := ref :: rest in
  let pixel_size_x := af_a (transform ref) in
  let pixel_size_y := (- af_e (transform ref))%Q in
  ~ (pixel_size_x == 0)%Q -> ~ (pixel_size_y == 0)%Q ->
  exists minx miny maxx maxy,
    is_min minx (map (Float.b_left fl) patch_files)
    /\ is_min miny (map (Float.b_bottom fl) patch_files)
    /\ is_max maxx (map (Float.b_right fl) patch_files)
    /\ is_max maxy (map (Float.b_top fl) patch_files)
    /\ Float.canvas_of fl ref patch_files
       = Ok (mk_canvas minx maxy pixel_size_x pixel_size_y
               (Qceiling (f64_div fl (f64_sub fl maxx minx) pixel_size_x))
               (Qceiling (f64_div fl (f64_sub fl maxy miny) pixel_size_y))).
Proof.
  intros patch_files psx psy Hx Hy.
  destruct (fold_min (Float.b_left fl) ref rest) as (minx & E1 & H1).
  destruct (fold_min (Float.b_bottom fl) ref rest) as (miny & E2 & H2).
  destruct (fold_max (Float.b_right fl) ref rest) as (maxx & E3 & H3).
  destruct (fold_max (Float.b_top fl) ref rest) as (maxy & E4 & H4).
  exists minx, miny, maxx, maxy.
  split; [exact H1|]. split; [exact H2|]. split; [exact H3|].
  split; [exact H4|].
  unfold Float.canvas_of, Float.output_bounds. fold psx psy.
  rewrite rounded_output_bounds_components.
  unfold patch_files. rewrite E1, E2, E3, E4.
  cbn [Float.py_sub bind]. rewrite (rounded_py_div_nonzero fl _ psx Hx).
  cbn [bind]. rewrite (rounded_py_div_nonzero fl _ psy Hy). cbn [bind].
  reflexivity.
Qed.

(** For a 1 by 3 patch of pixel size 0.1 the right bound is the float
    [0.1 * 3 = 0.30000000000000004], and the canvas is 4 wide. *)
Lemma canvas_size_witness :
  exists cv, Float.canvas_of floats_e patch_e [patch_e] = Ok cv
             /\ cv_width cv = 4 /\ cv_height cv = 1.
Proof.
  destruct (canvas_size floats_e patch_e [])
    as (minx & miny & maxx & maxy & H1 & H2 & H3 & H4 & Hcv).
  - cbn. intros H. discriminate H.
  - cbn. intros H. discriminate H.
  - eexists. split; [exact Hcv|].
    destruct H1 as [[<- | []] _]. destruct H2 as [[<- | []] _].
    destruct H3 as [[<- | []] _]. destruct H4 as [[<- | []] _].
    split; vm_compute; reflexivity.
Defined.

(** ** Failure paths *)

(** Line 54: neither a patch list nor a folder. *)
Lemma no_patch_source_raises blend dtype mask_file :
  blend_patches_to_raster None None blend dtype mask_file = Raise ValueError.
Proof. reflexivity. Qed.

(** Line 62: an empty patch list is rejected before anything is read. *)
Lemma empty_patch_list_raises patch_folder blend dtype mask_file :
  blend_patches_to_raster (Some []) patch_folder blend dtype mask_file
  = Raise FileNotFoundError
  /\ blend_patches_to_raster None (Some []) blend dtype mask_file
     = Raise FileNotFoundError.
Proof. split; reflexivity. Qed.

Lemma weight_for_unknown (blend : string) (h w : Z) :
  ~ known_blend blend -> weight_for blend h w = Raise ValueError.
Proof.
  intros Hk. unfold weight_for, known_blend in *.
  destruct (String.eqb_spec blend "average"); [tauto|].
  destruct (String.eqb_spec blend "smooth"); [tauto|].
  destruct (String.eqb_spec blend "hann"); [tauto|].
  reflexivity.
Qed.

(** Line 104: with an unknown mode the first iteration raises before it
    touches the accumulators. *)
Lemma unknown_blend_raises blend cv src rest st :
  ~ known_blend blend ->
  blend_loop blend cv (src :: rest) st = Raise ValueError.
Proof.
  intros Hk. cbn [blend_loop]. unfold blend_step. destruct st as [acc ws].
  now rewrite weight_for_unknown.
Qed.

(** Lines 133-136 have no [else]: whatever the [dtype] string, the
    stages before it run and nothing is raised there; an unknown
    [dtype] leaves the float array as it is. *)
Lemma convert_dtype_unknown (dtype : string) (result : ndarray fval) :
  dtype <> "uint16"%string -> dtype <> "uint8"%string ->
  convert_dtype dtype result = FloatData result.
Proof.
  intros H16 H8. unfold convert_dtype.
  destruct (String.eqb_spec dtype "uint16"); [contradiction|].
  destruct (String.eqb_spec dtype "uint8"); [contradiction|].
  reflexivity.
Qed.

Lemma unknown_dtype_passes patch_files patch_folder l blend dtype mask_file
  cv acc weight_sum :
  resolve_patch_files patch_files patch_folder = Ok l ->
  accumulate l blend = Ok (cv, (acc, weight_sum)) ->
  dtype <> "uint16"%string -> dtype <> "uint8"%string ->
  blend_patches_to_raster patch_files patch_folder blend dtype mask_file
  = Ok (mk_output (cv_height cv) (cv_width cv) dtype
          (from_origin (cv_minx cv) (cv_maxy cv)
             (cv_pixel_size_x cv) (cv_pixel_size_y cv))
          0 (FloatData (apply_mask mask_file (normalize acc weight_sum)))).
Proof.
  intros Hl Hacc H16 H8. unfold blend_patches_to_raster.
  rewrite Hl. cbn [bind]. rewrite Hacc. cbn [bind].
  now rewrite convert_dtype_unknown.
Qed.

Lemma accumulate_patch_a :
  exists acc weight_sum,
    accumulate [patch_a] "average" = Ok (canvas_a, (acc, weight_sum))
    /\ cell acc 0 0 = 7%R /\ cell weight_sum 0 0 = 1%R.
Proof.
  do 2 eexists. split; [cbv; reflexivity|]. cbn. split; ring.
Qed.

(** C4, at the failing input: one patch, a known mode and the output
    type ["float32"].  The code raises nothing: it accumulates,
    normalizes and reaches the writer with the unquantized float array
    (here the single cell 7) and [dtype = "float32"] in the metadata. *)
Theorem unknown_dtype_not_rejected :
  exists out a,
    blend_patches_to_raster (Some [patch_a]) None "average" "float32" None
    = Ok out
    /\ meta_dtype out = "float32"%string
    /\ written out = FloatData a
    /\ cell a 0 0 = Finite 7.
Proof.
  destruct accumulate_patch_a as (acc & weight_sum & Hacc & Ha & Hw).
  do 2 eexists. split.
  - apply (unknown_dtype_passes (Some [patch_a]) None [patch_a] "average"
             "float32" None canvas_a acc weight_sum);
      [reflexivity | exact Hacc | discriminate | discriminate].
  - cbn [meta_dtype written apply_mask]. repeat split.
    rewrite normalize_cell, Ha, Hw.
    destruct (Rlt_dec 0 1); [f_equal; field | lra].
Qed.

(** ** Patches of zero weight *)

Lemma in_slice_range (len start stop i : Z) :
  in_slice len start stop i = true ->
  0 <= i - fst (slice_bounds len start stop) < snd (slice_bounds len start stop).
Proof.
  unfold in_slice. destruct (slice_bounds len start stop) as [s l].
  cbn [fst snd]. rewrite andb_true_iff, Z.leb_le, Z.ltb_lt. lia.
Qed.

Lemma bidx_range (n len k : Z) :
  broadcastable n len = true -> 0 <= k < len -> 0 <= bidx n k < n.
Proof.
  rewrite broadcastable_true. unfold bidx.
  destruct (Z.eqb_spec n 1); lia.
Qed.

(** A term of an in-place addition is 0 or a cell of the operand. *)
Lemma window_term_cases (H W r0 r1 c0 c1 : Z) (rhs : ndarray R) (i j : Z) :
  window_ok H W r0 r1 c0 c1 (nrows rhs) (ncols rhs) = true ->
  window_term H W r0 r1 c0 c1 rhs i j = 0%R
  \/ (in_slice H r0 r1 i = true /\ in_slice W c0 c1 j = true /\
      exists i' j', in_shape (nrows rhs) (ncols rhs) i' j'
        /\ window_term H W r0 r1 c0 c1 rhs i j = cell rhs i' j').
Proof.
  unfold window_ok. rewrite andb_true_iff. intros [Hbr Hbc].
  unfold window_term.
  destruct (in_slice H r0 r1 i && in_slice W c0 c1 j) eqn:E; [right | now left].
  apply andb_true_iff in E. destruct E as [Ei Ej].
  split; [exact Ei|]. split; [exact Ej|].
  eexists _, _. split; [|reflexivity].
  split; eapply bidx_range; eauto using in_slice_range.
Qed.

Lemma step_delta_inv blend cv st src d :
  step_delta blend cv st src = Ok d ->
  exists weight r c,
    weight_for blend (height src) (width src) = Ok weight
    /\ offsets cv src = Ok (r, c)
    /\ window_ok (nrows (fst st)) (ncols (fst st)) r (r + height src)
         c (c + width src) (height src) (width src) = true
    /\ window_ok (nrows (snd st)) (ncols (snd st)) r (r + height src)
         c (c + width src) (nrows weight) (ncols weight) = true
    /\ d = (window_term (nrows (fst st)) (ncols (fst st)) r (r + height src)
              c (c + width src) (np_mul (band1 src) weight),
            window_term (nrows (snd st)) (ncols (snd st)) r (r + height src)
              c (c + width src) weight).
Proof.
  destruct st as [acc weight_sum]. unfold step_delta, patch_terms.
  destruct (weight_for blend _ _) as [weight|e]; cbn [bind]; [|discriminate].
  destruct (offsets cv src) as [[r c]|e]; cbn [bind]; [|discriminate].
  destruct (window_ok (nrows acc) _ _ _ _ _ _ _) eqn:E1; cbn [andb];
    [|discriminate].
  destruct (window_ok (nrows weight_sum) _ _ _ _ _ _ _) eqn:E2; [|discriminate].
  intros [= <-]. exists weight, r, c. cbn [fst snd]. auto.
Qed.

(** With the "hann" mode a patch of height 2 or width 2 has an
    all-zero weight map. *)
Lemma hann_weight_zero (h w i j : Z) :
  h = 2 \/ w = 2 ->
  in_shape h w i j \/ in_shape (hanning_len h) (hanning_len w) i j ->
  cell (_hann_weight h w) i j = 0%R.
Proof.
  intros Hhw Hin. cbn [_hann_weight cell].
  assert (Hij : (h = 2 /\ 0 <= i < 2) \/ (w = 2 /\ 0 <= j < 2)).
  { unfold in_shape, hanning_len in Hin.
    destruct Hhw as [-> | ->]; cbn in Hin; [left | right]; lia. }
  destruct Hij as [[-> Hi] | [-> Hj]]; rewrite hanning_two by assumption; ring.
Qed.

Lemma np_mul_cell (a b : ndarray R) (i j : Z) :
  cell (np_mul a b) i j = (cell a i j * cell b i j)%R.
Proof. reflexivity. Qed.

Lemma hann_step_terms_zero cv st src d :
  height src = 2 \/ width src = 2 ->
  step_delta "hann" cv st src = Ok d ->
  forall i j, fst d i j = 0%R /\ snd d i j = 0%R.
Proof.
  intros Hhw Hd i j.
  apply step_delta_inv in Hd.
  destruct Hd as (weight & r & c & Hwt & _ & Hok1 & Hok2 & ->).
  cbn in Hwt. injection Hwt as <-. cbn [fst snd]. split.
  - destruct (window_term_cases _ _ _ _ _ _
                (np_mul (band1 src) (_hann_weight (height src) (width src)))
                i j Hok1) as [E | (_ & _ & i' & j' & Hin & E)]; [exact E|].
    rewrite E, np_mul_cell, hann_weight_zero; [ring | exact Hhw | left; exact Hin].
  - destruct (window_term_cases _ _ _ _ _ _
                (_hann_weight (height src) (width src)) i j Hok2)
      as [E | (_ & _ & i' & j' & Hin & E)]; [exact E|].
    rewrite E. apply hann_weight_zero; [exact Hhw | right; exact Hin].
Qed.

(** A cell that no patch of the list contributes to keeps its value in
    both accumulators. *)
Lemma blend_loop_untouched blend cv (i j : Z) (l : list Patch) :
  forall st st',
    (forall src st0 d, In src l ->
       nrows (fst st0) = nrows (fst st) -> ncols (fst st0) = ncols (fst st) ->
       nrows (snd st0) = nrows (snd st) -> ncols (snd st0) = ncols (snd st) ->
       step_delta blend cv st0 src = Ok d ->
       fst d i j = 0%R /\ snd d i j = 0%R) ->
    blend_loop blend cv l st = Ok st' ->
    cell (fst st') i j = cell (fst st) i j
    /\ cell (snd st') i j = cell (snd st) i j.
Proof.
  induction l as [|src l IH]; intros st st' Hz; cbn [blend_loop].
  - intros [= <-]. auto.
  - rewrite blend_step_delta.
    destruct (step_delta blend cv st src) as [d|e] eqn:Hd; cbn [bind];
      [|discriminate].
    intros Hl.
    destruct (Hz src st d (or_introl eq_refl) eq_refl eq_refl eq_refl eq_refl Hd)
      as [Hd1 Hd2].
    apply IH in Hl.
    + destruct Hl as [-> ->]. destruct st as [acc ws]. cbn.
      rewrite Hd1, Hd2. split; ring.
    + intros s st0 d0 Hin. destruct st as [acc ws]. cbn [add_delta fst snd add_cells nrows ncols].
      intros. eapply (Hz s st0); auto. now right.
Qed.

Lemma accumulate_inv (l : list Patch) (blend : string) cv st :
  accumulate l blend = Ok (cv, st) ->
  exists ref rest,
    l = ref :: rest
    /\ canvas_of ref l = Ok cv
    /\ 0 <= cv_height cv /\ 0 <= cv_width cv
    /\ blend_loop blend cv l (zero_state cv) = Ok st.
Proof.
  destruct l as [|ref rest]; cbn [accumulate]; [discriminate|].
  destruct (canvas_of ref (ref :: rest)) as [cv0|e] eqn:Ecv; cbn [bind];
    [|discriminate].
  unfold np_zeros, np_full.
  destruct (Z.ltb_spec (cv_height cv0) 0); cbn [orb bind]; [discriminate|].
  destruct (Z.ltb_spec (cv_width cv0) 0); cbn [orb bind]; [discriminate|].
  destruct (blend_loop blend cv0 (ref :: rest) _) as [st0|e] eqn:El;
    cbn [bind]; [|discriminate].
  intros [= <- <-]. exists ref, rest. repeat split; assumption.
Qed.

Lemma zero_state_shape (cv : Canvas) :
  has_shape (cv_height cv) (cv_width cv) (zero_state cv).
Proof. repeat split. Qed.

(** An iteration whose window fits in the canvas succeeds. *)
Lemma step_delta_fits blend cv st src weight (r c : Z) :
  let H := cv_height cv in
  let W := cv_width cv in
  let h := height src in
  let w := width src in
  has_shape H W st ->
  weight_for blend h w = Ok weight -> nrows weight = h -> ncols weight = w ->
  offsets cv src = Ok (r, c) ->
  0 <= h -> 0 <= w -> 0 <= r -> r + h <= H -> 0 <= c -> c + w <= W ->
  step_delta blend cv st src
  = Ok (window_term H W r (r + h) c (c + w) (np_mul (band1 src) weight),
        window_term H W r (r + h) c (c + w) weight).
Proof.
  intros H W h w Hs Hwt Hwr Hwc Hoff Hh Hw Hr Hrh Hc Hcw.
  destruct st as [acc weight_sum].
  destruct Hs as (Ha1 & Ha2 & Hs1 & Hs2). cbn [fst snd] in *.
  unfold step_delta, patch_terms. fold h w. rewrite Hwt, Hoff. cbn [bind].
  rewrite Ha1, Ha2, Hs1, Hs2, Hwr, Hwc.
  assert (Hok : window_ok H W r (r + h) c (c + w) h w = true).
  { unfold window_ok. rewrite !slice_bounds_fits by lia. cbn [snd].
    apply andb_true_iff. split; apply broadcastable_true; auto. }
  now rewrite Hok.
Qed.

Lemma window_term_fits (H W r c : Z) (rhs : ndarray R) (i j : Z) :
  0 <= r -> 0 <= c -> 0 <= nrows rhs -> 0 <= ncols rhs ->
  r + nrows rhs <= H -> c + ncols rhs <= W ->
  r <= i < r + nrows rhs -> c <= j < c + ncols rhs ->
  window_term H W r (r + nrows rhs) c (c + ncols rhs) rhs i j
  = cell rhs (i - r) (j - c).
Proof.
  intros Hr Hc Hh Hw Hrh Hcw Hi Hj. unfold window_term.
  rewrite !in_slice_fits, !slice_bounds_fits by lia. cbn [fst].
  destruct (Z.leb_spec r i); [|lia]. destruct (Z.ltb_spec i (r + nrows rhs)); [|lia].
  destruct (Z.leb_spec c j); [|lia]. destruct (Z.ltb_spec j (c + ncols rhs)); [|lia].
  cbn [andb]. unfold bidx.
  destruct (Z.eqb_spec (nrows rhs) 1), (Z.eqb_spec (ncols rhs) 1);
    f_equal; lia.
Qed.

Lemma add_delta_zero st d :
  (forall i j, fst d i j = 0%R /\ snd d i j = 0%R) -> add_delta st d = st.
Proof.
  intros Hd. destruct st as [acc ws]. unfold add_delta. cbn [fst snd].
  f_equal; apply add_cells_zero; intros i j; apply Hd.
Qed.

(** C10.  In "hann" mode a patch of height 2 or width 2 has an all-zero
    weight map; an iteration of the loop on such a patch, when it
    succeeds (as it does when the patch's window fits in the canvas),
    leaves [acc] and [weight_sum] unchanged; and a canvas cell covered
    only by such patches has zero accumulators and normalizes to 0. *)
Theorem hann_thin_patch_has_no_weight :
  (forall h w i j, h = 2 \/ w = 2 -> in_shape h w i j ->
     cell (_hann_weight h w) i j = 0%R)
  /\ (forall cv st src, height src = 2 \/ width src = 2 ->
        (forall st', blend_step "hann" cv st src = Ok st' -> st' = st)
        /\ (forall r c,
              has_shape (cv_height cv) (cv_width cv) st ->
              offsets cv src = Ok (r, c) ->
              0 <= height src -> 0 <= width src ->
              0 <= r -> r + height src <= cv_height cv ->
              0 <= c -> c + width src <= cv_width cv ->
              blend_step "hann" cv st src = Ok st))
  /\ (forall l cv acc weight_sum i j,
        accumulate l "hann" = Ok (cv, (acc, weight_sum)) ->
        (forall src, In src l -> covers cv src i j ->
                     height src = 2 \/ width src = 2) ->
        cell acc i j = 0%R /\ cell weight_sum i j = 0%R
        /\ cell (normalize acc weight_sum) i j = Finite 0).
Proof.
  split; [|split].
  - intros h w i j Hhw Hin. apply hann_weight_zero; auto.
  - intros cv st src Hhw. split.
    + intros st'. rewrite blend_step_delta.
      destruct (step_delta "hann" cv st src) as [d|e] eqn:Hd; cbn [bind];
        [|discriminate].
      intros [= <-]. apply add_delta_zero.
      now apply (hann_step_terms_zero cv st src d).
    + intros r c Hs Hoff Hh Hw Hr Hrh Hc Hcw.
      destruct (weight_for_shape "hann" (height src) (width src))
        as (weight & Hwt & Hwr & Hwc); [right; right; reflexivity | lia | lia |].
      rewrite blend_step_delta.
      rewrite (step_delta_fits "hann" cv st src weight r c) by assumption.
      cbn [bind]. f_equal. apply add_delta_zero.
      apply (hann_step_terms_zero cv st src); [exact Hhw|].
      now apply step_delta_fits.
  - intros l cv acc weight_sum i j Hacc Hcov.
    apply accumulate_inv in Hacc.
    destruct Hacc as (ref & rest & -> & _ & _ & _ & Hloop).
    apply (blend_loop_untouched "hann" cv i j) in Hloop.
    + destruct Hloop as [Ha Hw]. cbn in Ha, Hw.
      split; [exact Ha|]. split; [exact Hw|].
      rewrite normalize_cell, Hw.
      destruct (Rlt_dec 0 0); [lra | reflexivity].
    + intros src st0 d Hin H1 H2 H3 H4 Hd. cbn in H1, H2, H3, H4.
      pose proof (step_delta_inv _ _ _ _ _ Hd)
        as (weight & r & c & Hwt & Hoff & Hok1 & Hok2 & Ed).
      rewrite H1, H2 in Hok1. rewrite H3, H4 in Hok2.
      rewrite H1, H2, H3, H4 in Ed.
      destruct (window_term_cases _ _ _ _ _ _ weight i j Hok2)
        as [E | (Ei & Ej & _)].
      * destruct (in_slice (cv_height cv) r (r + height src) i
                  && in_slice (cv_width cv) c (c + width src) j) eqn:Ecov.
        -- apply andb_true_iff in Ecov.
           apply (hann_step_terms_zero cv st0 src d); [|exact Hd].
           apply Hcov; [exact Hin|]. exists r, c. tauto.
        -- subst d. cbn [fst snd].
           split; apply window_term_outside; exact Ecov.
      * apply (hann_step_terms_zero cv st0 src d); [|exact Hd].
        apply Hcov; [exact Hin|]. exists r, c. auto.
Qed.


(** ** A single patch *)

Lemma py_round_comp (x y : Q) : (x == y)%Q -> py_round x = py_round y.
Proof.
  intros E. unfold py_round.
  assert (Ef : Qfloor x = Qfloor y) by (now apply Qfloor_comp).
  rewrite Ef.
  assert (Ec : (x - inject_Z (Qfloor y) ?= 1 # 2)%Q
               = (y - inject_Z (Qfloor y) ?= 1 # 2)%Q).
  { apply Qcompare_comp; [|reflexivity]. now rewrite E. }
  now rewrite Ec.
Qed.

Lemma py_round_zero (x : Q) : (x == 0)%Q -> py_round x = 0.
Proof. intros E. rewrite (py_round_comp x 0 E). reflexivity. Qed.

Lemma Qceiling_inject (x : Q) (n : Z) : (x == inject_Z n)%Q -> Qceiling x = n.
Proof. intros E. rewrite E. apply Qceiling_Z. Qed.

(** The bounds of a north-up patch. *)
Lemma bounds_north_up (src : Patch) :
  (af_b (transform src) == 0)%Q -> (af_d (transform src) == 0)%Q ->
  bounds src
  = (af_c (transform src),
     (af_f (transform src) + af_e (transform src) * inject_Z (height src))%Q,
     (af_c (transform src) + af_a (transform src) * inject_Z (width src))%Q,
     af_f (transform src)).
Proof.
  intros Hb Hd. unfold bounds.
  apply Qeq_bool_iff in Hb. apply Qeq_bool_iff in Hd. now rewrite Hb, Hd.
Qed.

(** The canvas of a single north-up patch is the patch's own grid, and
    the patch sits at offset [(0, 0)]. *)
Lemma single_patch_canvas (src : Patch) :
  let t := transform src in
  (af_b t == 0)%Q -> (af_d t == 0)%Q ->
  ~ (af_a t == 0)%Q -> ~ (af_e t == 0)%Q ->
  exists cv,
    canvas_of src [src] = Ok cv
    /\ cv_height cv = height src /\ cv_width cv = width src
    /\ offsets cv src = Ok (0, 0).
Proof.
  intros t Hb Hd Ha He.
  assert (He' : ~ (- af_e t == 0)%Q).
  { intros E. apply He. rewrite <- (Qopp_involutive (af_e t)), E. reflexivity. }
  exists (mk_canvas (af_c t) (af_f t) (af_a t) (- af_e t)
            (Qceiling ((af_c t + af_a t * inject_Z (width src) - af_c t)
                       / af_a t))
            (Qceiling ((af_f t - (af_f t + af_e t * inject_Z (height src)))
                       / - af_e t))).
  split; [|split; [|split]].
  - unfold canvas_of, output_bounds. cbn [fold_left]. unfold bounds_step.
    rewrite (bounds_north_up src Hb Hd). fold t. cbn [upd py_sub bind].
    rewrite (py_div_nonzero _ _ Ha). cbn [bind].
    rewrite (py_div_nonzero _ _ He'). cbn [bind]. reflexivity.
  - cbn [cv_height]. apply Qceiling_inject. field. exact He.
  - cbn [cv_width]. apply Qceiling_inject. field. exact Ha.
  - unfold offsets, affine_apply. fold t.
    cbn [cv_minx cv_maxy cv_pixel_size_x cv_pixel_size_y].
    rewrite (py_div_nonzero _ _ Ha). cbn [bind].
    rewrite (py_div_nonzero _ _ He'). cbn [bind].
    rewrite !py_round_zero; [reflexivity | field; exact Ha | field; exact He].
Qed.

Lemma window_term_at (H W r c h w : Z) (rhs : ndarray R) (i j : Z) :
  nrows rhs = h -> ncols rhs = w ->
  0 <= r -> 0 <= c -> r + h <= H -> c + w <= W ->
  r <= i < r + h -> c <= j < c + w ->
  window_term H W r (r + h) c (c + w) rhs i j = cell rhs (i - r) (j - c).
Proof.
  intros <- <- Hr Hc Hrh Hcw Hi Hj. apply window_term_fits; lia.
Qed.

(** Accumulating a single north-up patch: the canvas is the patch's
    grid, [acc] holds the weighted samples and [weight_sum] the
    weights. *)
Lemma single_patch_accumulate (blend : string) (src : Patch) :
  let t := transform src in
  let h := height src in
  let w := width src in
  known_blend blend ->
  (af_b t == 0)%Q -> (af_d t == 0)%Q ->
  ~ (af_a t == 0)%Q -> ~ (af_e t == 0)%Q ->
  0 <= h -> 0 <= w ->
  exists cv acc weight_sum weight,
    accumulate [src] blend = Ok (cv, (acc, weight_sum))
    /\ weight_for blend h w = Ok weight
    /\ cv_height cv = h /\ cv_width cv = w
    /\ forall i j, in_shape h w i j ->
         cell acc i j = (0 + cell (band1 src) i j * cell weight i j)%R
         /\ cell weight_sum i j = (0 + cell weight i j)%R.
Proof.
  intros t h w Hk Hb Hd Ha He Hh Hw.
  destruct (single_patch_canvas src Hb Hd Ha He) as (cv & Hcv & HH & HW & Hoff).
  destruct (weight_for_shape blend h w Hk Hh Hw) as (weight & Hwt & Hwr & Hwc).
  fold h in HH. fold w in HW.
  assert (Hstep : step_delta blend cv (zero_state cv) src
    = Ok (window_term (cv_height cv) (cv_width cv) 0 (0 + h) 0 (0 + w)
            (np_mul (band1 src) weight),
          window_term (cv_height cv) (cv_width cv) 0 (0 + h) 0 (0 + w) weight)).
  { apply step_delta_fits; try assumption; try lia.
    apply zero_state_shape. }
  eexists cv, _, _, weight. split; [|split; [exact Hwt | split; [exact HH | split; [exact HW|]]]].
  - unfold accumulate. rewrite Hcv. cbn [bind].
    unfold np_zeros, np_full.
    destruct (Z.ltb_spec (cv_height cv) 0); [lia|].
    destruct (Z.ltb_spec (cv_width cv) 0); [lia|]. cbn [orb bind].
    cbn [blend_loop]. fold (zero_state cv).
    rewrite blend_step_delta, Hstep. cbn [bind]. reflexivity.
  - intros i j [Hi Hj]. cbn [zero_state add_delta fst snd add_cells cell].
    rewrite !(window_term_at _ _ 0 0 h w) by (reflexivity || lia).
    rewrite !Z.sub_0_r. split; reflexivity.
Qed.

Lemma average_weight_one (h w : Z) (weight : ndarray R) (i j : Z) :
  weight_for "average" h w = Ok weight -> cell weight i j = 1%R.
Proof.
  unfold weight_for, np_ones, np_full. cbn [String.eqb Ascii.eqb Bool.eqb].
  destruct ((h <? 0) || (w <? 0)); [discriminate|].
  now intros [= <-].
Qed.




Lemma hann_thin_patch_has_no_weight_witness :
  blend_step "hann" canvas_c (zero_state canvas_c) patch_c
  = Ok (zero_state canvas_c)
  /\ exists cv acc weight_sum,
       accumulate [patch_c] "hann" = Ok (cv, (acc, weight_sum))
       /\ cell (normalize acc weight_sum) 1 0 = Finite 0.
Proof.
  destruct hann_thin_patch_has_no_weight as (_ & Hstep & Hcell). split.
  - apply (proj2 (Hstep canvas_c (zero_state canvas_c) patch_c
                    (or_introl eq_refl)) 0 0);
      cbn; try lia; [repeat split | reflexivity].
  - destruct (single_patch_accumulate "hann" patch_c)
      as (cv & acc & weight_sum & _ & Hacc & _).
    + right; right; reflexivity.
    + reflexivity.
    + reflexivity.
    + cbn. intros H. discriminate H.
    + cbn. intros H. discriminate H.
    + cbn. lia.
    + cbn. lia.
    + exists cv, acc, weight_sum. split; [exact Hacc|].
      apply (Hcell [patch_c] cv acc weight_sum 1 0 Hacc).
      intros src [<- | []] _. left; reflexivity.
Defined.

Lemma normalize_spec_witness :
  cell (normalize (mk_ndarray 1 1 (fun _ _ => 6%R))
          (mk_ndarray 1 1 (fun _ _ => 2%R))) 0 0
  = Finite (6 / 2).
Proof.
  apply (normalize_spec (mk_ndarray 1 1 (fun _ _ => 6%R))
           (mk_ndarray 1 1 (fun _ _ => 2%R)) 0 0).
  cbn. lra.
Defined.

Lemma quantize_saturates_witness : quantize_uint16 (Finite 70000) = 65535.
Proof.
  apply (proj1 (proj2 (proj2 (quantize_saturates 70000)))). lra.
Defined.

(** * Further properties *)

(** ** The accumulators as sums over the patches *)

Lemma coversb_covers cv src i j : coversb cv src i j = true <-> covers cv src i j.
Proof.
  unfold coversb, covers. split.
  - destruct (offsets cv src) as [[r c]|e]; [|discriminate].
    rewrite andb_true_iff. intros [Hi Hj]. exists r, c. auto.
  - intros (r & c & -> & Hi & Hj). now rewrite Hi, Hj.
Qed.

Lemma stamp_outside cv src rhs i j :
  coversb cv src i j = false -> stamp cv src rhs i j = 0%R.
Proof.
  unfold coversb, stamp. destruct (offsets cv src) as [[r c]|e]; [|reflexivity].
  apply window_term_outside.
Qed.

Lemma window_ok_nonneg (H W r0 r1 c0 c1 h w : Z) :
  window_ok H W r0 r1 c0 c1 h w = true -> 0 <= h /\ 0 <= w.
Proof.
  unfold window_ok, slice_bounds. cbn [snd].
  rewrite andb_true_iff, !broadcastable_true. lia.
Qed.

Lemma weight_for_Ok_shape (blend : string) (h w : Z) (weight : ndarray R) :
  weight_for blend h w = Ok weight -> 0 <= h -> 0 <= w ->
  known_blend blend /\ nrows weight = h /\ ncols weight = w.
Proof.
  intros Hwt Hh Hw. unfold weight_for in Hwt.
  destruct (String.eqb_spec blend "average") as [-> | _].
  { destruct (weight_for_shape "average" h w) as (w0 & E & Hr & Hc);
      [left; reflexivity | lia | lia |].
    cbn in E. rewrite E in Hwt. injection Hwt as <-.
    split; [left; reflexivity | auto]. }
  destruct (String.eqb_spec blend "smooth") as [-> | _].
  { injection Hwt as <-. split; [right; left; reflexivity|]. cbn. lia. }
  destruct (String.eqb_spec blend "hann") as [-> | _]; [|discriminate].
  injection Hwt as <-. split; [right; right; reflexivity|].
  cbn. unfold hanning_len. destruct (Z.ltb_spec h 1), (Z.ltb_spec w 1); lia.
Qed.

(** A successful iteration, seen from one canvas cell: the cell is
    either outside the patch's window and gets nothing, or it gets the
    weighted sample and the weight of one cell of the patch. *)
Lemma step_delta_cell blend cv st src d (i j : Z) :
  has_shape (cv_height cv) (cv_width cv) st ->
  step_delta blend cv st src = Ok d ->
  fst d i j = stamp cv src (np_mul (band1 src) (weight_of blend src)) i j
  /\ snd d i j = stamp cv src (weight_of blend src) i j
  /\ (coversb cv src i j = true ->
      exists i' j',
        in_shape (height src) (width src) i' j'
        /\ (0 <= cell (weight_of blend src) i' j' <= 1)%R
        /\ fst d i j
           = (cell (band1 src) i' j' * cell (weight_of blend src) i' j')%R
        /\ snd d i j = cell (weight_of blend src) i' j').
Proof.
  intros Hs Hd. apply step_delta_inv in Hd.
  destruct Hd as (weight & r & c & Hwt & Hoff & Hok1 & Hok2 & ->).
  destruct st as [acc ws]. destruct Hs as (Ha1 & Ha2 & Hs1 & Hs2).
  cbn [fst snd] in *. rewrite Ha1, Ha2 in *. rewrite Hs1, Hs2 in *.
  unfold stamp, coversb, weight_of. rewrite Hoff, Hwt.
  split; [reflexivity|]. split; [reflexivity|].
  intros Hcov. apply andb_true_iff in Hcov. destruct Hcov as [Hi Hj].
  destruct (window_ok_nonneg _ _ _ _ _ _ _ _ Hok1) as [Hh Hw].
  destruct (weight_for_Ok_shape _ _ _ _ Hwt Hh Hw) as (Hk & Hwr & Hwc).
  unfold window_ok in Hok1. apply andb_true_iff in Hok1.
  destruct Hok1 as [Hbr Hbc].
  exists (bidx (height src) (i - fst (slice_bounds (cv_height cv) r (r + height src)))),
         (bidx (width src) (j - fst (slice_bounds (cv_width cv) c (c + width src)))).
  assert (Hin : in_shape (height src) (width src)
            (bidx (height src)
               (i - fst (slice_bounds (cv_height cv) r (r + height src))))
            (bidx (width src)
               (j - fst (slice_bounds (cv_width cv) c (c + width src))))).
  { split; eapply bidx_range; eauto using in_slice_range. }
  split; [exact Hin|]. split; [|split].
  - apply (weight_for_range blend (height src) (width src)); assumption.
  - unfold window_term. rewrite Hi, Hj. cbn [andb]. reflexivity.
  - unfold window_term. rewrite Hi, Hj, Hwr, Hwc. cbn [andb]. reflexivity.
Qed.

Lemma blend_loop_sums blend cv (i j : Z) (l : list Patch) :
  forall st st',
    has_shape (cv_height cv) (cv_width cv) st ->
    blend_loop blend cv l st = Ok st' ->
    cell (fst st') i j
    = (cell (fst st) i j
       + Rsum (map (fun src =>
                      stamp cv src (np_mul (band1 src) (weight_of blend src)) i j)
                 l))%R
    /\ cell (snd st') i j
       = (cell (snd st) i j
          + Rsum (map (fun src => stamp cv src (weight_of blend src) i j) l))%R.
Proof.
  induction l as [|src l IH]; intros st st' Hs; cbn [blend_loop map Rsum fold_right].
  - intros [= <-]. split; ring.
  - rewrite blend_step_delta.
    destruct (step_delta blend cv st src) as [d|e] eqn:Hd; cbn [bind];
      [|discriminate].
    intros Hl. apply IH in Hl; [|now apply add_delta_shape].
    destruct (step_delta_cell blend cv st src d i j Hs Hd) as (E1 & E2 & _).
    destruct Hl as [-> ->]. destruct st as [acc ws].
    cbn [add_delta fst snd add_cells cell]. rewrite E1, E2.
    fold (Rsum (map (fun src0 => stamp cv src0
                  (np_mul (band1 src0) (weight_of blend src0)) i j) l)).
    fold (Rsum (map (fun src0 => stamp cv src0 (weight_of blend src0) i j) l)).
    split; ring.
Qed.


(** ** Bounds on the accumulators *)

Lemma blend_loop_weight_bounds blend cv (i j : Z) (l : list Patch) :
  forall st st',
    has_shape (cv_height cv) (cv_width cv) st ->
    blend_loop blend cv l st = Ok st' ->
    (cell (snd st) i j <= cell (snd st') i j
       <= cell (snd st) i j
          + INR (List.length (filter (fun src => coversb cv src i j) l)))%R.
Proof.
  induction l as [|src l IH]; intros st st' Hs; cbn [blend_loop filter].
  - intros [= <-]. cbn. lra.
  - rewrite blend_step_delta.
    destruct (step_delta blend cv st src) as [d|e] eqn:Hd; cbn [bind];
      [|discriminate].
    intros Hl.
    destruct (step_delta_cell blend cv st src d i j Hs Hd) as (_ & E2 & Hcov).
    apply IH in Hl; [|now apply add_delta_shape].
    destruct st as [acc ws]. cbn [add_delta fst snd add_cells cell] in *.
    destruct (coversb cv src i j) eqn:Ec.
    + destruct (Hcov eq_refl) as (i' & j' & _ & Hw & _ & Es).
      cbn [List.length]. rewrite S_INR. lra.
    + rewrite E2, stamp_outside in Hl by assumption. lra.
Qed.

(** X6.  [weight_sum] is never negative, and at no cell larger than the
    number of patches covering that cell. *)
Theorem weight_sum_bounds (l : list Patch) (blend : string) cv acc weight_sum
  (i j : Z) :
  accumulate l blend = Ok (cv, (acc, weight_sum)) ->
  (0 <= cell weight_sum i j
     <= INR (List.length (filter (fun src => coversb cv src i j) l)))%R.
Proof.
  intros Hacc. apply accumulate_inv in Hacc.
  destruct Hacc as (ref & rest & -> & _ & _ & _ & Hloop).
  pose proof (blend_loop_weight_bounds blend cv i j _ _ _
                (zero_state_shape cv) Hloop) as Hb.
  cbn [zero_state snd cell] in Hb. lra.
Qed.

(** ** The "average" mode *)

Lemma stamp_mul_ones cv src (weight : ndarray R) (i j : Z) :
  (forall i' j', cell weight i' j' = 1%R) ->
  stamp cv src (np_mul (band1 src) weight) i j = stamp cv src (band1 src) i j.
Proof.
  intros Hone. unfold stamp. destruct (offsets cv src) as [[r c]|e];
    [|reflexivity].
  unfold window_term. cbn [np_mul nrows ncols cell].
  destruct (in_slice _ _ _ i && in_slice _ _ _ j); [|reflexivity].
  rewrite Hone. ring.
Qed.

Lemma blend_loop_average cv (i j : Z) (l : list Patch) :
  forall st st',
    has_shape (cv_height cv) (cv_width cv) st ->
    blend_loop "average" cv l st = Ok st' ->
    let covering := filter (fun src => coversb cv src i j) l in
    cell (fst st') i j
    = (cell (fst st) i j
       + Rsum (map (fun src => stamp cv src (band1 src) i j) covering))%R
    /\ cell (snd st') i j
       = (cell (snd st) i j + INR (List.length covering))%R.
Proof.
  induction l as [|src l IH]; intros st st' Hs; cbn [blend_loop filter].
  - intros [= <-]. cbn. split; ring.
  - rewrite blend_step_delta.
    destruct (step_delta "average" cv st src) as [d|e] eqn:Hd; cbn [bind];
      [|discriminate].
    intros Hl.
    destruct (step_delta_cell "average" cv st src d i j Hs Hd)
      as (E1 & E2 & Hcov).
    apply step_delta_inv in Hd.
    destruct Hd as (weight & _ & _ & Hwt & _).
    assert (Hone : forall i' j', cell (weight_of "average" src) i' j' = 1%R).
    { intros i' j'. unfold weight_of. rewrite Hwt.
      apply (average_weight_one _ _ _ _ _ Hwt). }
    apply IH in Hl; [|now apply add_delta_shape].
    destruct Hl as [-> ->]. destruct st as [acc ws].
    cbn [add_delta fst snd add_cells cell]. rewrite E1, E2.
    rewrite stamp_mul_ones by exact Hone.
    destruct (coversb cv src i j) eqn:Ec.
    + destruct (Hcov eq_refl) as (i' & j' & _ & _ & _ & Es).
      rewrite E2 in Es. rewrite Es, Hone.
      cbn [map Rsum fold_right List.length]. rewrite S_INR.
      fold (Rsum (map (fun src0 => stamp cv src0 (band1 src0) i j)
                    (filter (fun src0 => coversb cv src0 i j) l))).
      split; ring.
    + rewrite !stamp_outside by assumption. split; ring.
Qed.

(** X3.  In "average" mode the weight sum of a cell is the number of
    patches covering it, and the normalized value of a covered cell is
    the arithmetic mean of the samples those patches put on it. *)
Theorem average_is_mean (l : list Patch) cv acc weight_sum (i j : Z) :
  accumulate l "average" = Ok (cv, (acc, weight_sum)) ->
  let covering := filter (fun src => coversb cv src i j) l in
  let samples := map (fun src => stamp cv src (band1 src) i j) covering in
  cell weight_sum i j = INR (List.length covering)
  /\ cell acc i j = Rsum samples
  /\ (covering <> [] ->
      cell (normalize acc weight_sum) i j
      = Finite (Rsum samples / INR (List.length covering))).
Proof.
  intros Hacc covering samples. apply accumulate_inv in Hacc.
  destruct Hacc as (ref & rest & -> & _ & _ & _ & Hloop).
  destruct (blend_loop_average cv i j _ _ _ (zero_state_shape cv) Hloop)
    as [Ea Ew].
  cbn [zero_state fst snd cell] in Ea, Ew.
  fold covering in Ea, Ew. fold samples in Ea.
  assert (Ea' : cell acc i j = Rsum samples) by (rewrite Ea; ring).
  assert (Ew' : cell weight_sum i j = INR (List.length covering))
    by (rewrite Ew; ring).
  split; [exact Ew'|]. split; [exact Ea'|].
  intros Hne. rewrite normalize_cell, Ea', Ew'.
  destruct (Rlt_dec 0 (INR (List.length covering))) as [_ | Hn];
    [reflexivity|].
  exfalso. apply Hn. apply lt_0_INR.
  destruct covering; [contradiction | cbn; lia].
Qed.

(** ** The whole function *)

Lemma blend_inv patch_files patch_folder blend dtype mask_file out :
  blend_patches_to_raster patch_files patch_folder blend dtype mask_file
  = Ok out ->
  exists l cv acc weight_sum,
    resolve_patch_files patch_files patch_folder = Ok l
    /\ accumulate l blend = Ok (cv, (acc, weight_sum))
    /\ out = mk_output (cv_height cv) (cv_width cv) dtype
               (from_origin (cv_minx cv) (cv_maxy cv)
                  (cv_pixel_size_x cv) (cv_pixel_size_y cv))
               0 (convert_dtype dtype
                    (apply_mask mask_file (normalize acc weight_sum))).
Proof.
  unfold blend_patches_to_raster.
  destruct (resolve_patch_files patch_files patch_folder) as [l|e];
    cbn [bind]; [|discriminate].
  destruct (accumulate l blend) as [[cv [acc ws]]|e] eqn:Ha; cbn [bind];
    [|discriminate].
  intros [= <-]. exists l, cv, acc, ws. auto.
Qed.

Lemma convert_dtype_cell dtype (result : ndarray fval) (i j : Z) :
  raster_cell (convert_dtype dtype result) i j
  = convert_pixel dtype (cell result i j)
  /\ raster_shape (convert_dtype dtype result) = (nrows result, ncols result).
Proof.
  unfold convert_dtype, convert_pixel.
  destruct (String.eqb dtype "uint16"); [split; reflexivity|].
  destruct (String.eqb dtype "uint8"); split; reflexivity.
Qed.

Lemma quantize_zero : quantize_uint16 (Finite 0) = 0 /\ quantize_uint8 (Finite 0) = 0.
Proof.
  unfold quantize_uint16, quantize_uint8. cbn [np_clip astype_uint].
  rewrite !Rmax_left by lra. rewrite !Rmin_left by lra.
  rewrite Rtrunc_nonneg by lra.
  replace 0%R with (IZR 0) by reflexivity. rewrite Int_part_IZR.
  split; reflexivity.
Qed.

(** The pixel written for the float 0: the integer 0, or the float 0 when
    the [dtype] string is not a known one. *)
Lemma convert_pixel_zero dtype :
  convert_pixel dtype (Finite 0) = PxInt 0
  \/ convert_pixel dtype (Finite 0) = PxFloat (Finite 0).
Proof.
  unfold convert_pixel. destruct quantize_zero as [E16 E8].
  destruct (String.eqb dtype "uint16"); [left; now rewrite E16|].
  destruct (String.eqb dtype "uint8"); [left; now rewrite E8 | now right].
Qed.

(** X9.  The array handed to the writer always has the shape announced
    in the metadata, whatever the [dtype]; the metadata carry the
    requested [dtype], nodata 0 and an unrotated transform with the
    pixel sizes of the first patch. *)
Theorem output_matches_metadata patch_files patch_folder blend dtype mask_file
  out :
  blend_patches_to_raster patch_files patch_folder blend dtype mask_file
  = Ok out ->
  raster_shape (written out) = (meta_height out, meta_width out)
  /\ 0 <= meta_height out /\ 0 <= meta_width out
  /\ meta_dtype out = dtype /\ meta_nodata out = 0
  /\ exists ref rest,
       resolve_patch_files patch_files patch_folder = Ok (ref :: rest)
       /\ af_a (meta_transform out) = af_a (transform ref)
       /\ (af_e (meta_transform out) == af_e (transform ref))%Q
       /\ af_b (meta_transform out) = 0%Q /\ af_d (meta_transform out) = 0%Q.
Proof.
  intros Hout. apply blend_inv in Hout.
  destruct Hout as (l & cv & acc & ws & Hl & Hacc & ->).
  cbn [written meta_height meta_width meta_dtype meta_nodata meta_transform].
  pose proof Hacc as Hinv. apply accumulate_inv in Hinv.
  destruct Hinv as (ref & rest & -> & Hcv & HH & HW & Hloop).
  pose proof (blend_loop_shape _ _ _ _ _ _ _ (zero_state_shape cv) Hloop)
    as (H1 & H2 & _).
  cbn [fst] in H1, H2.
  split.
  { rewrite (proj2 (convert_dtype_cell dtype _ 0 0)).
    destruct mask_file; cbn [apply_mask normalize nrows ncols]; congruence. }
  repeat (split; [assumption || reflexivity|]).
  exists ref, rest. split; [exact Hl|].
  unfold canvas_of in Hcv.
  destruct (output_bounds (ref :: rest)) as [[[mnx mny] mxx] mxy].
  destruct (py_sub mxx mnx); cbn [bind] in Hcv; [|discriminate].
  destruct (py_div _ _); cbn [bind] in Hcv; [|discriminate].
  destruct (py_sub mxy mny); cbn [bind] in Hcv; [|discriminate].
  destruct (py_div _ _); cbn [bind] in Hcv; [|discriminate].
  destruct mnx, mxy; try discriminate. injection Hcv as <-.
  cbn. repeat split; try reflexivity. apply Qopp_involutive.
Qed.

Lemma Rsum_zero {A : Type} (f : A -> R) (l : list A) :
  (forall x, In x l -> f x = 0%R) -> Rsum (map f l) = 0%R.
Proof.
  induction l as [|x l IH]; intros Hf; [reflexivity|].
  cbn [map Rsum fold_right]. fold (Rsum (map f l)).
  rewrite (Hf x (or_introl eq_refl)), IH; [ring|].
  intros y Hy. apply Hf. now right.
Qed.

Lemma normalized_finite (acc weight_sum : ndarray R) mask_file (i j : Z) :
  exists x,
    cell (apply_mask mask_file (normalize acc weight_sum)) i j = Finite x
    /\ (cell (normalize acc weight_sum) i j = Finite 0 -> x = 0%R)
    /\ (forall mask_data, mask_file = Some mask_data ->
          cell mask_data i j <> 1 -> x = 0%R)
    /\ ((mask_file = None
         \/ exists mask_data, mask_file = Some mask_data
                              /\ cell mask_data i j = 1) ->
        cell (normalize acc weight_sum) i j = Finite x).
Proof.
  rewrite normalize_cell.
  destruct mask_file as [mask_data|]; cbn [apply_mask cell];
    rewrite ?normalize_cell.
  - destruct (Z.eqb_spec (cell mask_data i j) 1) as [E1 | N1];
      destruct (Rlt_dec 0 (cell weight_sum i j)); cbn [fmul_bool];
      eexists; (split; [reflexivity|]); repeat split;
      try (intros [= ->]; reflexivity); try reflexivity;
      try (intros m [= <-] Hm; contradiction);
      try (intros [[=] | (m & [= <-] & Hm)]; congruence).
  - destruct (Rlt_dec 0 (cell weight_sum i j));
      eexists; (split; [reflexivity|]); repeat split;
      try (intros [= ->]; reflexivity); try reflexivity;
      try (intros m [=]).
Qed.

(** X7.  A canvas cell that no patch covers has zero accumulators, is
    normalized to 0 and is written as 0, with or without a mask. *)
Theorem uncovered_cell_is_zero (l : list Patch) (blend : string)
  cv acc weight_sum (i j : Z) :
  accumulate l blend = Ok (cv, (acc, weight_sum)) ->
  (forall src, In src l -> coversb cv src i j = false) ->
  cell acc i j = 0%R /\ cell weight_sum i j = 0%R
  /\ forall mask_file,
       let v := cell (apply_mask mask_file (normalize acc weight_sum)) i j in
       v = Finite 0 /\ quantize_uint16 v = 0 /\ quantize_uint8 v = 0.
Proof.
  intros Hacc Hunc. apply accumulate_inv in Hacc.
  destruct Hacc as (ref & rest & -> & _ & _ & _ & Hloop).
  destruct (blend_loop_sums blend cv i j _ _ _ (zero_state_shape cv) Hloop)
    as [Ea Ew].
  cbn [zero_state fst snd cell] in Ea, Ew.
  rewrite Rsum_zero in Ea by (intros src Hin; apply stamp_outside, Hunc, Hin).
  rewrite Rsum_zero in Ew by (intros src Hin; apply stamp_outside, Hunc, Hin).
  assert (Ew' : cell weight_sum i j = 0%R) by (rewrite Ew; ring).
  split; [rewrite Ea; ring|]. split; [exact Ew'|].
  intros mask_file v.
  assert (Hn : cell (normalize acc weight_sum) i j = Finite 0).
  { rewrite normalize_cell, Ew'.
    destruct (Rlt_dec 0 0); [lra | reflexivity]. }
  destruct (normalized_finite acc weight_sum mask_file i j)
    as (x & Ex & Hx0 & _).
  unfold v. rewrite Ex, (Hx0 Hn).
  split; [reflexivity | apply quantize_zero].
Qed.

(** X8.  If the function returns a result with a mask (given already
    resampled onto the canvas), it also returns one without the mask,
    with the same shape and metadata; a cell whose mask value is 1 is
    written exactly as without the mask, and a cell whose mask value is
    anything else is written as 0. *)
Theorem mask_keeps_or_zeroes patch_files patch_folder blend dtype
  (mask_data : ndarray Z) out :
  blend_patches_to_raster patch_files patch_folder blend dtype (Some mask_data)
  = Ok out ->
  exists out0,
    blend_patches_to_raster patch_files patch_folder blend dtype None = Ok out0
    /\ meta_height out = meta_height out0 /\ meta_width out = meta_width out0
    /\ meta_transform out = meta_transform out0
    /\ raster_shape (written out) = raster_shape (written out0)
    /\ forall i j,
         (cell mask_data i j = 1 ->
          raster_cell (written out) i j = raster_cell (written out0) i j)
         /\ (cell mask_data i j <> 1 ->
             raster_cell (written out) i j = convert_pixel dtype (Finite 0)).
Proof.
  intros Hout. apply blend_inv in Hout.
  destruct Hout as (l & cv & acc & ws & Hl & Hacc & ->).
  eexists. split.
  { unfold blend_patches_to_raster. rewrite Hl. cbn [bind].
    rewrite Hacc. cbn [bind]. reflexivity. }
  cbn [meta_height meta_width meta_transform written].
  repeat (split; [reflexivity|]).
  split.
  { rewrite !(proj2 (convert_dtype_cell dtype _ 0 0)). reflexivity. }
  intros i j. rewrite !(proj1 (convert_dtype_cell dtype _ i j)).
  destruct (normalized_finite acc ws (Some mask_data) i j)
    as (x & Ex & _ & Hx0 & Hx1).
  rewrite Ex. cbn [apply_mask]. split.
  - intros E1. rewrite Hx1; [reflexivity|]. right. exists mask_data. auto.
  - intros N1. now rewrite (Hx0 mask_data eq_refl N1).
Qed.

(** ** Rounding *)

Lemma py_round_floor (x : Q) : Qfloor x <= py_round x <= Qfloor x + 1.
Proof.
  unfold py_round. destruct (_ ?= _)%Q; [destruct (Z.even _)| |]; lia.
Qed.

Lemma py_round_nonneg (x : Q) : (0 <= x)%Q -> 0 <= py_round x.
Proof.
  intros Hx. pose proof (py_round_floor x) as [Hf _].
  pose proof (Qfloor_resp_le 0 x Hx) as H0. change (Qfloor 0) with 0 in H0. lia.
Qed.

Lemma py_round_le_ceiling (x : Q) : py_round x <= Qceiling x.
Proof.
  pose proof (Qle_floor_ceiling x) as Hfc. rewrite <- Zle_Qle in Hfc.
  assert (Hup : (inject_Z (Qfloor x) < x)%Q -> Qfloor x + 1 <= Qceiling x).
  { intros Hlt. pose proof (Qle_ceiling x) as Hc.
    assert (H : (inject_Z (Qfloor x) < inject_Z (Qceiling x))%Q)
      by (eapply Qlt_le_trans; eassumption).
    rewrite <- Zlt_Qlt in H. lia. }
  unfold py_round. revert Hup. generalize (inject_Z (Qfloor x)). intros q Hup.
  destruct (Qcompare_spec (x - q) (1 # 2)) as [E | L | G].
  - destruct (Z.even (Qfloor x)); [lia|]. apply Hup. Lqa.lra.
  - lia.
  - apply Hup. Lqa.lra.
Qed.

Lemma py_round_inject_Z (k : Z) : py_round (inject_Z k) = k.
Proof.
  unfold py_round. rewrite Qfloor_Z. generalize (inject_Z k). intros q.
  destruct (Qcompare_spec (q - q) (1 # 2)) as [E | L | G];
    [exfalso; Lqa.lra | reflexivity | exfalso; Lqa.lra].
Qed.

Lemma Qceiling_shift (x : Q) (n : Z) :
  Qceiling (x + inject_Z n) = Qceiling x + n.
Proof.
  apply Z.le_antisymm.
  - rewrite <- (Qceiling_Z (Qceiling x + n)). apply Qceiling_resp_le.
    rewrite inject_Z_plus. pose proof (Qle_ceiling x). Lqa.lra.
  - pose proof (Qceiling_lt x) as H1.
    pose proof (Qle_ceiling (x + inject_Z n)) as H2.
    assert (H : (inject_Z (Qceiling x - 1 + n)
                 < inject_Z (Qceiling (x + inject_Z n)))%Q).
    { rewrite inject_Z_plus. Lqa.lra. }
    rewrite <- Zlt_Qlt in H. lia.
Qed.

(** An offset: the rounded quotient [d / ps] is non-negative, and the
    window of [n] cells that starts there ends within the canvas axis
    of [ceil(D / ps)] cells, provided [0 <= d] and [d + n * ps <= D]. *)
Lemma offset_fits (d D ps : Q) (n : Z) :
  (0 < ps)%Q -> (0 <= d)%Q -> (d + inject_Z n * ps <= D)%Q ->
  0 <= py_round (d / ps) /\ py_round (d / ps) + n <= Qceiling (D / ps).
Proof.
  intros Hps Hd HD. split.
  - apply py_round_nonneg. apply Qle_shift_div_l; [exact Hps | Lqa.lra].
  - pose proof (py_round_le_ceiling (d / ps)) as Hr.
    assert (Hle : (d / ps + inject_Z n <= D / ps)%Q).
    { apply Qle_shift_div_l; [exact Hps|].
      assert (E : ((d / ps + inject_Z n) * ps == d + inject_Z n * ps)%Q)
        by (field; Lqa.lra).
      rewrite E. exact HD. }
    apply Qceiling_resp_le in Hle.
    rewrite Qceiling_shift in Hle. lia.
Qed.

(** ** Patches on a common grid *)

Lemma canvas_of_ok (ref : Patch) (rest : list Patch) :
  let patch_files := ref :: rest in
  let psx := af_a (transform ref) in
  let psy := (- af_e (transform ref))%Q in
  ~ (psx == 0)%Q -> ~ (psy == 0)%Q ->
  exists minx miny maxx maxy,
    is_min minx (map b_left patch_files)
    /\ is_min miny (map b_bottom patch_files)
    /\ is_max maxx (map b_right patch_files)
    /\ is_max maxy (map b_top patch_files)
    /\ canvas_of ref patch_files
       = Ok (mk_canvas minx maxy psx psy
               (Qceiling ((maxx - minx) / psx))
               (Qceiling ((maxy - miny) / psy))).
Proof.
  intros patch_files psx psy Hx Hy.
  destruct (fold_min b_left ref rest) as (minx & E1 & H1).
  destruct (fold_min b_bottom ref rest) as (miny & E2 & H2).
  destruct (fold_max b_right ref rest) as (maxx & E3 & H3).
  destruct (fold_max b_top ref rest) as (maxy & E4 & H4).
  exists minx, miny, maxx, maxy.
  split; [exact H1|]. split; [exact H2|]. split; [exact H3|].
  split; [exact H4|].
  unfold canvas_of, output_bounds. fold psx psy.
  rewrite output_bounds_components. unfold patch_files.
  rewrite E1, E2, E3, E4.
  cbn [py_sub bind]. rewrite (py_div_nonzero _ psx Hx). cbn [bind].
  rewrite (py_div_nonzero _ psy Hy). cbn [bind]. reflexivity.
Qed.

(** The offsets of an aligned patch whose bounds lie within the canvas
    bounds. *)
Lemma aligned_offsets_fit (minx miny maxx maxy psx psy : Q) (src : Patch) :
  let cv := mk_canvas minx maxy psx psy
              (Qceiling ((maxx - minx) / psx))
              (Qceiling ((maxy - miny) / psy)) in
  (0 < psx)%Q -> (0 < psy)%Q -> aligned psx psy src ->
  (minx <= b_left src)%Q -> (miny <= b_bottom src)%Q ->
  (b_right src <= maxx)%Q -> (b_top src <= maxy)%Q ->
  exists r c, offsets cv src = Ok (r, c) /\ fits cv src r c.
Proof.
  intros cv Hpx Hpy (Hb & Hd & Ha & He & Hh & Hw) Hl Hbt Hr Ht.
  unfold b_left, b_bottom, b_right, b_top in *.
  rewrite (bounds_north_up src Hb Hd) in *. cbn [fst snd] in *.
  assert (Hx0 : ~ (psx == 0)%Q) by (intros E; rewrite E in Hpx; discriminate).
  assert (Hy0 : ~ (psy == 0)%Q) by (intros E; rewrite E in Hpy; discriminate).
  unfold offsets, affine_apply.
  cbn [cv cv_minx cv_maxy cv_pixel_size_x cv_pixel_size_y].
  rewrite (py_div_nonzero _ _ Hx0). cbn [bind].
  rewrite (py_div_nonzero _ _ Hy0). cbn [bind].
  eexists _, _. split; [reflexivity|].
  rewrite Ha in Hr.
  assert (He' : (af_e (transform src) == - psy)%Q).
  { rewrite <- He. symmetry. apply Qopp_involutive. }
  rewrite He' in Hbt.
  unfold fits. cbn [cv cv_height cv_width].
  revert Hl Hbt Hr Ht.
  generalize (af_c (transform src)) (af_f (transform src))
             (af_a (transform src)) (af_b (transform src))
             (af_d (transform src)) (af_e (transform src)).
  intros c f a b d e Hl Hbt Hr Ht.
  destruct (offset_fits (maxy - (0 * d + 0 * e + f)) (maxy - miny) psy
              (height src) Hpy) as [R1 R2].
  { Lqa.lra. }
  { revert Hbt. generalize (inject_Z (height src)). intros q Hbt. Lqa.lra. }
  destruct (offset_fits (0 * a + 0 * b + c - minx) (maxx - minx) psx
              (width src) Hpx) as [C1 C2].
  { Lqa.lra. }
  { revert Hr. generalize (inject_Z (width src)). intros q Hr. Lqa.lra. }
  auto.
Qed.

Lemma blend_loop_fits blend cv (l : list Patch) :
  known_blend blend ->
  (forall src, In src l ->
     0 <= height src /\ 0 <= width src
     /\ exists r c, offsets cv src = Ok (r, c) /\ fits cv src r c) ->
  forall st,
    has_shape (cv_height cv) (cv_width cv) st ->
    exists st', blend_loop blend cv l st = Ok st'.
Proof.
  intros Hk. induction l as [|src l IH]; intros Hfit st Hs; cbn [blend_loop].
  - eauto.
  - destruct (Hfit src (or_introl eq_refl))
      as (Hh & Hw & r & c & Hoff & Hr & Hrh & Hc & Hcw).
    destruct (weight_for_shape blend (height src) (width src) Hk Hh Hw)
      as (weight & Hwt & Hwr & Hwc).
    rewrite blend_step_delta.
    rewrite (step_delta_fits blend cv st src weight r c) by assumption.
    cbn [bind]. apply IH.
    + intros s Hin. apply Hfit. now right.
    + now apply add_delta_shape.
Qed.

Lemma aligned_accumulate (blend : string) (ref : Patch)
  (rest : list Patch) :
  let patch_files := ref :: rest in
  let psx := af_a (transform ref) in
  let psy := (- af_e (transform ref))%Q in
  known_blend blend ->
  (0 < psx)%Q -> (0 < psy)%Q ->
  Forall (aligned psx psy) patch_files ->
  exists cv acc weight_sum,
    accumulate patch_files blend = Ok (cv, (acc, weight_sum))
    /\ (forall src, In src patch_files ->
          exists r c, offsets cv src = Ok (r, c) /\ fits cv src r c).
Proof.
  intros patch_files psx psy Hk Hpx Hpy Hal.
  assert (Hx0 : ~ (psx == 0)%Q) by (intros E; rewrite E in Hpx; discriminate).
  assert (Hy0 : ~ (psy == 0)%Q) by (intros E; rewrite E in Hpy; discriminate).
  destruct (canvas_of_ok ref rest Hx0 Hy0)
    as (minx & miny & maxx & maxy & [_ H1] & [_ H2] & [_ H3] & [_ H4] & Hcv).
  fold patch_files psx psy in H1, H2, H3, H4, Hcv.
  set (cv := mk_canvas minx maxy psx psy (Qceiling ((maxx - minx) / psx))
               (Qceiling ((maxy - miny) / psy))) in *.
  rewrite Forall_forall in Hal.
  rewrite Forall_forall in H1, H2, H3, H4.
  assert (Hfit : forall src, In src patch_files ->
            exists r c, offsets cv src = Ok (r, c) /\ fits cv src r c).
  { intros src Hin. apply aligned_offsets_fit; auto.
    - apply H1. now apply in_map.
    - apply H2. now apply in_map.
    - apply H3. now apply in_map.
    - apply H4. now apply in_map. }
  assert (Hshape : 0 <= cv_height cv /\ 0 <= cv_width cv).
  { destruct (Hfit ref (or_introl eq_refl)) as (r & c & _ & F).
    destruct (Hal ref (or_introl eq_refl)) as (_ & _ & _ & _ & Hh & Hw).
    unfold fits in F. lia. }
  destruct (blend_loop_fits blend cv patch_files Hk) with (st := zero_state cv)
    as [[acc ws] Hloop].
  { intros src Hin. destruct (Hal src Hin) as (_ & _ & _ & _ & Hh & Hw). auto. }
  { apply zero_state_shape. }
  assert (Hacc : accumulate patch_files blend = Ok (cv, (acc, ws))).
  { unfold accumulate, patch_files. fold patch_files. rewrite Hcv. cbn [bind].
    unfold np_zeros, np_full.
    destruct (Z.ltb_spec (cv_height cv) 0); [lia|].
    destruct (Z.ltb_spec (cv_width cv) 0); [lia|]. cbn [orb bind].
    fold (zero_state cv). rewrite Hloop. reflexivity. }
  exists cv, acc, ws. split; [exact Hacc | exact Hfit].
Qed.

(** X1.  Patches on a common grid always blend.  If every patch is
    north-up with the (positive) pixel sizes of the first one, then the
    window of each patch lies inside the canvas and the function returns
    a result, for every known mode, output type and mask: the shape
    error of the in-place addition cannot occur. *)
Theorem aligned_patches_blend (blend : string) (ref : Patch)
  (rest : list Patch) :
  let patch_files := ref :: rest in
  let psx := af_a (transform ref) in
  let psy := (- af_e (transform ref))%Q in
  known_blend blend ->
  (0 < psx)%Q -> (0 < psy)%Q ->
  Forall (aligned psx psy) patch_files ->
  exists cv acc weight_sum,
    accumulate patch_files blend = Ok (cv, (acc, weight_sum))
    /\ (forall src, In src patch_files ->
          exists r c, offsets cv src = Ok (r, c) /\ fits cv src r c)
    /\ forall patch_folder dtype mask_file, exists out,
         blend_patches_to_raster (Some patch_files) patch_folder blend dtype
           mask_file = Ok out.
Proof.
  intros patch_files psx psy Hk Hpx Hpy Hal.
  destruct (aligned_accumulate blend ref rest Hk Hpx Hpy Hal)
    as (cv & acc & ws & Hacc & Hfit).
  exists cv, acc, ws. split; [exact Hacc|]. split; [exact Hfit|].
  intros patch_folder dtype mask_file. eexists.
  unfold blend_patches_to_raster. cbn [resolve_patch_files bind].
  unfold patch_files in Hacc |- *. rewrite Hacc. cbn [bind]. reflexivity.
Qed.

(** ** Offsets and the output transform *)

(** X10.  The offsets invert the output transform.  A patch whose
    upper-left corner is where the output transform puts the corner of
    canvas pixel (column [k], row [r]) is accumulated at row offset [r]
    and column offset [k]. *)
Theorem offsets_invert_output_transform (cv : Canvas) (src : Patch) (k r : Z) :
  let t := from_origin (cv_minx cv) (cv_maxy cv)
             (cv_pixel_size_x cv) (cv_pixel_size_y cv) in
  ~ (cv_pixel_size_x cv == 0)%Q -> ~ (cv_pixel_size_y cv == 0)%Q ->
  (fst (affine_apply (transform src) 0 0)
   == fst (affine_apply t (inject_Z k) (inject_Z r)))%Q ->
  (snd (affine_apply (transform src) 0 0)
   == snd (affine_apply t (inject_Z k) (inject_Z r)))%Q ->
  offsets cv src = Ok (r, k).
Proof.
  intros t Hx Hy Ex Ey. unfold offsets.
  destruct (affine_apply (transform src) 0 0) as [left_ top] eqn:E0.
  cbn [fst snd] in Ex, Ey.
  unfold t, affine_apply, from_origin in Ex, Ey. cbn [fst snd af_a af_b af_c af_d af_e af_f] in Ex, Ey.
  rewrite (py_div_nonzero _ _ Hx). cbn [bind].
  rewrite (py_div_nonzero _ _ Hy). cbn [bind].
  rewrite (py_round_comp ((left_ - cv_minx cv) / cv_pixel_size_x cv)
             (inject_Z k)),
          (py_round_comp ((cv_maxy cv - top) / cv_pixel_size_y cv)
             (inject_Z r)).
  - now rewrite !py_round_inject_Z.
  - rewrite Ey. field. exact Hy.
  - rewrite Ex. field. exact Hx.
Qed.

(** ** Symmetry of the weight maps *)

Lemma hanning_sym (M k : Z) : hanning M (M - 1 - k) = hanning M k.
Proof.
  unfold hanning. destruct (M =? 1); [reflexivity|].
  replace (1 - M + 2 * (M - 1 - k)) with (- (1 - M + 2 * k)) by lia.
  rewrite opp_IZR.
  replace (PI * - IZR (1 - M + 2 * k) / IZR (M - 1))%R
    with (- (PI * IZR (1 - M + 2 * k) / IZR (M - 1)))%R
    by (unfold Rdiv; ring).
  now rewrite cos_neg.
Qed.


(** X11.  Every weight map is symmetric under a vertical flip, a
    horizontal flip and, against the map of the transposed shape, a
    transposition. *)
Theorem weight_maps_symmetric (blend : string) (h w : Z)
  (weight weight_t : ndarray R) (i j : Z) :
  weight_for blend h w = Ok weight ->
  weight_for blend w h = Ok weight_t ->
  cell weight (h - 1 - i) j = cell weight i j
  /\ cell weight i (w - 1 - j) = cell weight i j
  /\ cell weight_t j i = cell weight i j.
Proof.
  unfold weight_for.
  destruct (String.eqb blend "average").
  { intros H1 H2.
    assert (E1 : forall a b, cell weight a b = 1%R).
    { intros a b. unfold np_ones, np_full in H1.
      destruct ((h <? 0) || (w <? 0)); [discriminate|]. now injection H1 as <-. }
    assert (E2 : forall a b, cell weight_t a b = 1%R).
    { intros a b. unfold np_ones, np_full in H2.
      destruct ((w <? 0) || (h <? 0)); [discriminate|]. now injection H2 as <-. }
    now rewrite !E1, E2. }
  destruct (String.eqb blend "smooth").
  { intros [= <-] [= <-]. cbn [_distance_weight cell].
    replace (Z.min (h - 1 - i) (h - 1 - (h - 1 - i)))
      with (Z.min i (h - 1 - i)) by lia.
    replace (Z.min (w - 1 - j) (w - 1 - (w - 1 - j)))
      with (Z.min j (w - 1 - j)) by lia.
    replace (Z.min (Z.min j (w - 1 - j)) (Z.min i (h - 1 - i)))
      with (Z.min (Z.min i (h - 1 - i)) (Z.min j (w - 1 - j))) by lia.
    replace (Z.min w h) with (Z.min h w) by lia.
    repeat split. }
  destruct (String.eqb blend "hann"); [|discriminate].
  intros [= <-] [= <-]. cbn [_hann_weight cell].
  rewrite !hanning_sym. repeat split; ring.
Qed.


(** ** Polygonization *)

Section PolygonizeProperties.

Variable geometry : Type.
Variable gdal_Polygonize : Affine -> ndarray Z -> list geometry.
Variable layer_name : string -> string.


Lemma last_cons {A : Type} (x d : A) (l : list A) :
  last (x :: l) d = last l x.
Proof.
  revert x d. induction l as [|y l IH]; intros x d; [reflexivity|].
  change (last (x :: y :: l) d) with (last (y :: l) d).
  now rewrite !IH.
Qed.

Lemma polygonize_fold (threshold : R) (files : list RasterFile) :
  forall out_layer : option (Layer geometry),
    match contributions geometry gdal_Polygonize layer_name threshold files with
    | [] => fold_left (polygonize_step geometry gdal_Polygonize layer_name threshold) files out_layer = out_layer
    | c :: cs =>
        exists layer,
          fold_left (polygonize_step geometry gdal_Polygonize layer_name threshold) files out_layer = Some layer
          /\ ly_srs layer
             = match out_layer with
               | Some l0 => ly_srs l0
               | None => fst (fst c)
               end
          /\ map f_geom (ly_features layer)
             = match out_layer with
               | Some l0 => map f_geom (ly_features l0)
               | None => []
               end ++ List.concat (map snd (c :: cs))
          /\ Forall (fun feature =>
                       f_source feature = snd (fst (last cs c)))
               (ly_features layer)
    end.
Proof.
  induction files as [|file files IH]; intros out_layer; [reflexivity|].
  unfold contributions. cbn [filter_map fold_left].
  fold (contributions geometry gdal_Polygonize layer_name threshold files).
  remember (polygonize_step geometry gdal_Polygonize layer_name threshold
              out_layer file) as s eqn:Es.
  unfold polygonize_step in Es. unfold readable.
  destruct (gdal_Open file) as [src_ds|]; [|subst s; apply IH].
  destruct (ds_array src_ds) as [arr|]; [|subst s; apply IH].
  subst s.
  set (polys := gdal_Polygonize (ds_geotransform src_ds)
                  (threshold_mask threshold arr)).
  set (name := layer_name (raster_path file)).
  set (layer0 := match out_layer with
                 | Some l0 => l0
                 | None => mk_layer (ds_projection src_ds) []
                 end).
  set (layer1 := mk_layer (ly_srs layer0)
                   (set_source geometry name
                      (ly_features layer0
                       ++ map (fun g => mk_feature g "1"%string) polys))).
  assert (Hgeom : map f_geom (ly_features layer1)
                  = map f_geom (ly_features layer0) ++ polys).
  { cbn [layer1 ly_features]. unfold set_source.
    rewrite map_map. cbn [f_geom]. rewrite map_app, map_map. cbn [f_geom].
    now rewrite map_id. }
  assert (Hsrs : ly_srs layer1
                 = match out_layer with
                   | Some l0 => ly_srs l0
                   | None => ds_projection src_ds
                   end) by (destruct out_layer; reflexivity).
  assert (Hg0 : map f_geom (ly_features layer0)
                = match out_layer with
                  | Some l0 => map f_geom (ly_features l0)
                  | None => []
                  end) by (destruct out_layer; reflexivity).
  specialize (IH (Some layer1)).
  destruct (contributions geometry gdal_Polygonize layer_name threshold files) as [|c cs].
  - exists layer1. cbn [fst snd map List.concat last].
    split; [exact IH|]. split; [exact Hsrs|]. split.
    + rewrite Hgeom, Hg0, app_nil_r. reflexivity.
    + cbn [layer1 ly_features]. unfold set_source.
      apply Forall_forall. intros f Hin. apply in_map_iff in Hin.
      destruct Hin as (f0 & <- & _). reflexivity.
  - destruct IH as (layer & Hf & Hs & Hg & Hsrc).
    exists layer. cbn [fst snd].
    split; [exact Hf|]. split; [now rewrite Hs|]. split.
    + rewrite Hg, Hgeom, Hg0. cbn [map List.concat snd].
      now rewrite <- app_assoc.
    + rewrite last_cons. exact Hsrc.
Qed.

(** X13.  The geometries written are the polygons of the readable rasters,
    in file order; unreadable files are skipped; the layer has the
    projection of the first readable raster; with no readable raster no
    layer is created; an empty file list raises [FileNotFoundError]. *)
Theorem polygonize_collects_readable (threshold : R)
  (raster_files : list RasterFile) :
  match raster_files, contributions geometry gdal_Polygonize layer_name threshold raster_files with
  | [], _ =>
      raster_to_polygons_gdal geometry gdal_Polygonize layer_name
        raster_files threshold = Raise FileNotFoundError
  | _ :: _, [] =>
      raster_to_polygons_gdal geometry gdal_Polygonize layer_name
        raster_files threshold = Ok None
  | _ :: _, c :: cs =>
      exists layer,
        raster_to_polygons_gdal geometry gdal_Polygonize layer_name
          raster_files threshold = Ok (Some layer)
        /\ ly_srs layer = fst (fst c)
        /\ map f_geom (ly_features layer) = List.concat (map snd (c :: cs))
  end.
Proof.
  destruct raster_files as [|file files]; [reflexivity|].
  pose proof (polygonize_fold threshold (file :: files) None) as H.
  destruct (contributions geometry gdal_Polygonize layer_name threshold (file :: files)) as [|c cs].
  - unfold raster_to_polygons_gdal. now rewrite H.
  - destruct H as (layer & Hf & Hs & Hg & _).
    exists layer. unfold raster_to_polygons_gdal. rewrite Hf. auto.
Qed.

(** X14.  When the function returns, every feature of the layer, from
    whichever raster it came, carries the name of the last readable
    raster in its "source" field: the loop at lines 92-94 rewrites the
    field of all features of the layer at each raster. *)
Theorem polygonize_sources_are_last_name (threshold : R)
  (raster_files : list RasterFile) (layer : Layer geometry) :
  raster_to_polygons_gdal geometry gdal_Polygonize layer_name
    raster_files threshold = Ok (Some layer) ->
  exists c cs,
    contributions geometry gdal_Polygonize layer_name threshold raster_files = c :: cs
    /\ Forall (fun feature => f_source feature = snd (fst (last cs c)))
         (ly_features layer).
Proof.
  destruct raster_files as [|file files]; [discriminate|].
  unfold raster_to_polygons_gdal. intros H0.
  assert (Hf : fold_left
                 (polygonize_step geometry gdal_Polygonize layer_name threshold)
                 (file :: files) None = Some layer) by (now injection H0).
  clear H0.
  pose proof (polygonize_fold threshold (file :: files) None) as H.
  destruct (contributions geometry gdal_Polygonize layer_name threshold (file :: files)) as [|c cs].
  - rewrite H in Hf. discriminate.
  - destruct H as (layer' & Hf' & _ & _ & Hsrc).
    rewrite Hf in Hf'. injection Hf' as <-. exists c, cs. auto.
Qed.

End PolygonizeProperties.

(** ** Taubin smoothing *)

Section SmoothProperties.

Variable geometry : Type.
Variable simplify : R -> bool -> geometry -> result geometry.
Variable taubin_smooth : R -> R -> Z -> geometry -> result geometry.

Lemma smooth_taubin_fold factor mu steps pre post preserve
  (geoms : list geometry) :
  forall smoothed,
    fold_left (taubin_step geometry simplify taubin_smooth factor mu steps
                 pre post preserve) geoms smoothed
    = smoothed
      ++ map (fun geom =>
                match taubin_try geometry simplify taubin_smooth factor mu
                        steps pre post preserve geom with
                | (Ok smoothed_geom, _) => smoothed_geom
                | (Raise _, geom') => geom'
                end) geoms.
Proof.
  induction geoms as [|geom geoms IH]; intros smoothed; cbn [fold_left map].
  - now rewrite app_nil_r.
  - rewrite IH. unfold taubin_step.
    destruct (taubin_try _ _ _ _ _ _ _ _ _ geom) as [[g|e] g'];
      now rewrite <- app_assoc.
Qed.

(** X15.  [smooth_taubin] returns exactly one geometry per input geometry,
    in the same order.  With no pre-simplification, a geometry on which
    the smoothing or the final simplification raises is returned
    unchanged; one on which both succeed is returned smoothed and
    simplified. *)
Theorem smooth_taubin_keeps_every_geometry factor mu steps pre post preserve
  (geoms : list geometry) :
  let out := smooth_taubin geometry simplify taubin_smooth geoms factor mu
               steps pre post preserve in
  List.length out = List.length geoms
  /\ forall n geom,
       nth_error geoms n = Some geom -> pre = None ->
       exists g,
         nth_error out n = Some g
         /\ (forall e, taubin_smooth factor mu steps geom = Raise e -> g = geom)
         /\ (forall s, taubin_smooth factor mu steps geom = Ok s ->
               match post with
               | None => g = s
               | Some tol =>
                   match simplify tol preserve s with
                   | Ok s' => g = s'
                   | Raise _ => g = geom
                   end
               end).
Proof.
  intros out. unfold out, smooth_taubin. rewrite smooth_taubin_fold.
  cbn [app]. split; [apply length_map|].
  intros n geom Hn ->.
  eexists. split; [apply map_nth_error; exact Hn|].
  unfold taubin_try. split.
  - intros e ->. reflexivity.
  - intros s ->. cbn [bind]. destruct post as [tol|]; [|reflexivity].
    destruct (simplify tol preserve s); reflexivity.
Qed.

End SmoothProperties.

(** ** The tile script *)

Lemma quantize_uint16_range (v : fval) : 0 <= quantize_uint16 v <= 65535.
Proof.
  destruct v as [x| | |]; unfold quantize_uint16; cbn [np_clip].
  - destruct (quantize_clipped 16 65535 x) as [E H]; [lia|].
    cbn [np_clip] in E. rewrite E. exact H.
  - cbn [astype_uint]. rewrite Rtrunc_nonneg by lra. rewrite Int_part_IZR.
    cbn. lia.
  - cbn [astype_uint]. rewrite Rtrunc_nonneg by lra.
    replace 0%R with (IZR 0) by reflexivity. rewrite Int_part_IZR. cbn. lia.
  - cbn. lia.
Qed.

(** X16.  The tile script.  A key absent from the manifest raises
    [ValueError] and a key with an empty patch list raises
    [FileNotFoundError].  For a key whose patches lie on a common grid,
    with the default options ("hann", "uint16") the script reaches the
    writer with a [uint16] array of the announced shape whose cells all
    lie in [0 .. 65535]. *)
Theorem mosaic_tile_outcome (groups : string -> option (list Patch))
  (part : string) (mask : option (ndarray Z)) :
  (groups part = None ->
   forall blend dtype, mosaic_tile groups part blend dtype mask = Raise ValueError)
  /\ (groups part = Some [] ->
      forall blend dtype,
        mosaic_tile groups part blend dtype mask = Raise FileNotFoundError)
  /\ (forall ref rest,
        groups part = Some (ref :: rest) ->
        (0 < af_a (transform ref))%Q -> (0 < - af_e (transform ref))%Q ->
        Forall (aligned (af_a (transform ref)) (- af_e (transform ref)))
          (ref :: rest) ->
        exists out a,
          mosaic_tile groups part None None mask = Ok out
          /\ meta_dtype out = "uint16"%string
          /\ written out = UIntData 16 a
          /\ nrows a = meta_height out /\ ncols a = meta_width out
          /\ forall i j, 0 <= cell a i j <= 65535).
Proof.
  split; [|split].
  - intros Hg blend dtype. unfold mosaic_tile. now rewrite Hg.
  - intros Hg blend dtype. unfold mosaic_tile. now rewrite Hg.
  - intros ref rest Hg Hpx Hpy Hal. unfold mosaic_tile. rewrite Hg.
    destruct (aligned_accumulate "hann" ref rest) as (cv & acc & ws & Hacc & _);
      [right; right; reflexivity | assumption | assumption | assumption |].
    pose proof Hacc as Hinv. apply accumulate_inv in Hinv.
    destruct Hinv as (ref' & rest' & _ & _ & _ & _ & Hloop).
    pose proof (blend_loop_shape _ _ _ _ _ _ _ (zero_state_shape cv) Hloop)
      as (H1 & H2 & _). cbn [fst] in H1, H2.
    eexists _, _. unfold blend_patches_to_raster.
    cbn [resolve_patch_files bind]. rewrite Hacc. cbn [bind].
    split; [reflexivity|].
    cbn [meta_dtype written meta_height meta_width].
    split; [reflexivity|]. split; [reflexivity|].
    cbn [map_array nrows ncols cell apply_mask].
    split; [destruct mask; cbn; assumption|].
    split; [destruct mask; cbn; assumption|].
    intros i j. apply quantize_uint16_range.
Qed.

(** ** Witnesses *)

Lemma accumulate_ca :
  exists acc weight_sum,
    accumulate [patch_c; patch_a] "average" = Ok (canvas_c, (acc, weight_sum))
    /\ cell acc 0 0 = 8%R /\ cell weight_sum 0 0 = 2%R
    /\ cell acc 1 1 = 12%R /\ cell weight_sum 1 1 = 1%R.
Proof.
  do 2 eexists. split; [cbv; reflexivity|]. cbn. repeat split; ring.
Qed.

Lemma accumulate_ad :
  exists acc weight_sum,
    accumulate [patch_a; patch_d] "average" = Ok (canvas_ad, (acc, weight_sum)).
Proof. do 2 eexists. cbv; reflexivity. Qed.


Lemma weight_sum_bounds_witness :
  exists acc weight_sum,
    accumulate [patch_c; patch_a] "average" = Ok (canvas_c, (acc, weight_sum))
    /\ (0 <= cell weight_sum 0 0 <= 2)%R.
Proof.
  destruct accumulate_ca as (acc & ws & Hacc & _).
  exists acc, ws. split; [exact Hacc|].
  apply (weight_sum_bounds _ _ _ _ _ 0 0 Hacc).
Defined.

Lemma average_is_mean_witness :
  exists acc weight_sum,
    accumulate [patch_c; patch_a] "average" = Ok (canvas_c, (acc, weight_sum))
    /\ cell weight_sum 0 0 = 2%R.
Proof.
  destruct accumulate_ca as (acc & ws & Hacc & _).
  exists acc, ws. split; [exact Hacc|].
  apply (average_is_mean _ _ _ _ 0 0 Hacc).
Defined.

Lemma blend_of_accumulate patch_files patch_folder l blend dtype mask_file
  cv acc weight_sum :
  resolve_patch_files patch_files patch_folder = Ok l ->
  accumulate l blend = Ok (cv, (acc, weight_sum)) ->
  blend_patches_to_raster patch_files patch_folder blend dtype mask_file
  = Ok (mk_output (cv_height cv) (cv_width cv) dtype
          (from_origin (cv_minx cv) (cv_maxy cv)
             (cv_pixel_size_x cv) (cv_pixel_size_y cv))
          0 (convert_dtype dtype
               (apply_mask mask_file (normalize acc weight_sum)))).
Proof.
  intros Hl Hacc. unfold blend_patches_to_raster.
  rewrite Hl. cbn [bind]. rewrite Hacc. reflexivity.
Qed.

Lemma output_matches_metadata_witness :
  exists out,
    blend_patches_to_raster (Some [patch_a]) None "average" "uint16" None
    = Ok out
    /\ raster_shape (written out) = (meta_height out, meta_width out).
Proof.
  destruct accumulate_patch_a as (acc & ws & Hacc & _).
  pose proof (blend_of_accumulate (Some [patch_a]) None _ "average" "uint16"
                None _ _ _ eq_refl Hacc) as Hout.
  eexists. split; [exact Hout|].
  apply (output_matches_metadata _ _ _ _ _ _ Hout).
Defined.

Lemma uncovered_cell_is_zero_witness :
  exists acc weight_sum,
    accumulate [patch_a; patch_d] "average" = Ok (canvas_ad, (acc, weight_sum))
    /\ cell weight_sum 0 1 = 0%R.
Proof.
  destruct accumulate_ad as (acc & ws & Hacc).
  exists acc, ws. split; [exact Hacc|].
  apply (uncovered_cell_is_zero _ _ _ _ _ 0 1 Hacc).
  intros src [<- | [<- | []]]; reflexivity.
Defined.

Lemma mask_keeps_or_zeroes_witness :
  exists out out0,
    blend_patches_to_raster (Some [patch_a]) None "average" "uint16"
      (Some mask_none) = Ok out
    /\ blend_patches_to_raster (Some [patch_a]) None "average" "uint16" None
       = Ok out0
    /\ raster_cell (written out) 0 0 = convert_pixel "uint16" (Finite 0).
Proof.
  destruct accumulate_patch_a as (acc & ws & Hacc & _).
  pose proof (blend_of_accumulate (Some [patch_a]) None _ "average" "uint16"
                (Some mask_none) _ _ _ eq_refl Hacc) as Hout.
  destruct (mask_keeps_or_zeroes _ _ _ _ _ _ Hout)
    as (out0 & H0 & _ & _ & _ & _ & Hcells).
  eexists _, out0. split; [exact Hout|]. split; [exact H0|].
  apply (Hcells 0 0). cbn. discriminate.
Defined.

Lemma aligned_patches_blend_witness :
  exists cv acc weight_sum,
    accumulate [patch_a; patch_c] "hann" = Ok (cv, (acc, weight_sum)).
Proof.
  destruct (aligned_patches_blend "hann" patch_a [patch_c])
    as (cv & acc & ws & Hacc & _).
  - right; right; reflexivity.
  - reflexivity.
  - reflexivity.
  - repeat constructor; cbn; try reflexivity; lia.
  - exists cv, acc, ws. exact Hacc.
Defined.

Lemma offsets_invert_output_transform_witness :
  offsets canvas_c patch_a = Ok (0, 0).
Proof.
  apply (offsets_invert_output_transform canvas_c patch_a 0 0).
  - cbn. intros H. discriminate H.
  - cbn. intros H. discriminate H.
  - reflexivity.
  - reflexivity.
Defined.

Lemma weight_maps_symmetric_witness :
  cell (_hann_weight 3 4) (3 - 1 - 0) 1 = cell (_hann_weight 3 4) 0 1.
Proof.
  apply (weight_maps_symmetric "hann" 3 4 (_hann_weight 3 4) (_hann_weight 4 3)
           0 1); reflexivity.
Defined.


Lemma polygonize_sources_are_last_name_witness :
  exists layer,
    raster_to_polygons_gdal Z one_polygon (fun path => path)
      [raster_one; raster_bad; raster_two] 500 = Ok (Some layer)
    /\ Forall (fun feature => f_source feature = "two_prob.tif"%string)
         (ly_features layer).
Proof.
  eexists. split; [reflexivity|].
  destruct (polygonize_sources_are_last_name Z one_polygon (fun path => path)
              500 [raster_one; raster_bad; raster_two] _ eq_refl)
    as (c & cs & Hc & Hsrc).
  injection Hc as <- <-. exact Hsrc.
Defined.
